(** * House3D SUNCG scene: scene preparation and the multi-mode shader

    A shallow embedding of [renderer/suncg/scene.cc]: the instance color
    allocator, the category resolver, the scene builder and the fragment
    shader, followed by the properties proved about them.

    Conventions of the embedding.
    - C++ [int] is a 32-bit two's complement integer, modelled as [Z] with
      the wrap-around written out ([wrap_int]).
    - A [float] whose value is compared or computed with is a binary32 value
      ([float], with NaN, the infinities and the round-to-nearest
      arithmetic of [Binary32]): the vertex positions that the bounding box
      is folded over, and the shader's inverse-depth encoding
      ([SUNCGShader32]).
    - Colors and the other shader inputs are exact rationals [Q]; the
      statements about them are about which values are passed on and how
      they are ordered, not about rounding.
    - Code that aborts ([m_assert]) or has no defined behaviour (indexing a
      vector out of range) is modelled by an explicit outcome type. *)

From Stdlib Require Import ZArith QArith Qround Qabs String Ascii Lia Lqa.
From Stdlib Require Import SpecFloat.
From stdpp Require Import base list listset.

Local Open Scope Z_scope.

(** ** Machine integers *)

Definition INT_MAX : Z := 2147483647.

Definition wrap_int (z : Z) : Z := (z + 2147483648) mod 4294967296 - 2147483648.

Definition int_add (a b : Z) : Z := wrap_int (a + b).

(* C++ division truncates towards zero, the remainder takes the sign of the
   dividend: [Z.quot] and [Z.rem]. *)
Definition int_div (a b : Z) : Z := wrap_int (Z.quot a b).
Definition int_rem (a b : Z) : Z := Z.rem a b.

(** ** Single-precision floats

    A [float] is a binary32 value in the representation of the Standard
    Library's [SpecFloat]: a signed zero, a signed infinity, NaN, or a finite
    number [(-1)^s * m * 2^e].  The arithmetic rounds to nearest, ties to
    even; the comparisons are the IEEE ones, false as soon as an operand is
    NaN. *)

Definition float : Type := spec_float.

Module Binary32.

Definition prec : Z := 24.
Definition emax : Z := 128.

(* An integer as a float (nearest), used for literals and [int] operands. *)
Definition of_Z (z : Z) : float := binary_normalize prec emax z 0 false.

Definition add : float -> float -> float := SFadd prec emax.
Definition sub : float -> float -> float := SFsub prec emax.
Definition mul : float -> float -> float := SFmul prec emax.
Definition div : float -> float -> float := SFdiv prec emax.

Definition ltb : float -> float -> bool := SFltb.
Definition leb : float -> float -> bool := SFleb.
Definition eqb : float -> float -> bool := SFeqb.

Definition is_nan (x : float) : bool :=
  match x with S754_nan => true | _ => false end.

(* [floor]: the largest integral float not above [x].  A float with a
   non-negative exponent is integral already; [Z.shiftr] rounds down. *)
Definition floor (x : float) : float :=
  match x with
  | S754_finite s m e =>
      if 0 <=? e then x
      else binary_normalize prec emax
             (Z.shiftr (cond_Zopp s (Zpos m)) (- e)) 0 s
  | _ => x
  end.

(* The rational that a zero or a finite float stands for. *)
Definition to_Q (x : float) : option Q :=
  match x with
  | S754_zero _ => Some 0%Q
  | S754_finite s m e =>
      Some (inject_Z (cond_Zopp s (Zpos m)) * Qpower 2 e)%Q
  | _ => None
  end.

End Binary32.

(* std::numeric_limits<float>::max() and ::lowest() *)
Definition FLT_MAX : float := S754_finite false 16777215 104.
Definition FLT_LOWEST : float := S754_finite true 16777215 104.

(** ** Vectors (glm::vec2, glm::vec3, glm::vec4)

    [vec2], [vec3] and [vec4] hold colors, texels and the shader's inputs;
    [fvec2] and [fvec3] hold the floats of a vertex, [fvec4] a color that
    the shader computes in single precision. *)

Record vec2 := Vec2 { v2x : Q; v2y : Q }.
Record vec3 := Vec3 { v3x : Q; v3y : Q; v3z : Q }.
Record vec4 := Vec4 { v4x : Q; v4y : Q; v4z : Q; v4w : Q }.

Record fvec2 := FVec2 { f2x : float; f2y : float }.
Record fvec3 := FVec3 { f3x : float; f3y : float; f3z : float }.
Record fvec4 := FVec4 { f4x : float; f4y : float; f4z : float; f4w : float }.

(* Numerical equality of two colors, component by component. *)
Definition vec3_eq (a b : vec3) : Prop :=
  (v3x a == v3x b)%Q /\ (v3y a == v3y b)%Q /\ (v3z a == v3z b)%Q.

Definition in_unit (q : Q) : Prop := (0 <= q)%Q /\ (q <= 1)%Q.

Definition vec3_in_unit (c : vec3) : Prop :=
  in_unit (v3x c) /\ in_unit (v3y c) /\ in_unit (v3z c).

(** ** Color allocator: [get_uniform_sampled_colors] *)

(* static_cast<int>(pow(256, 3)) *)
Definition color_cube : Z := 16777216.

(* The body of the loop that turns [current_color] into a glm::vec3. *)
Definition color_of_int (current_color : Z) : vec3 :=
  let r := int_rem current_color 256 in
  let g := int_rem (int_div current_color 256) 256 in
  let b := int_rem (int_div (int_div current_color 256) 256) 256 in
  Vec3 (inject_Z r / 255)%Q (inject_Z g / 255)%Q (inject_Z b / 255)%Q.

(* [for (int i = 0; i < count; i++)]: [n] iterations remain. *)
Fixpoint sample_loop (n : nat) (interval_length current_color : Z)
    (result : list vec3) : list vec3 :=
  match n with
  | O => result
  | S n' =>
      sample_loop n' interval_length
        (int_add current_color interval_length)
        (result ++ [color_of_int current_color])
  end.

Definition interval_length_of (count : Z) : Z :=
  int_div color_cube (int_add count 2).

(* The vector [result] as it is just before [std::random_shuffle].  A zero
   divisor ([count = -2]) has no defined behaviour: [None].  For the two
   largest counts [count + 2] overflows; the sum is wrapped here, and the
   spacing is 0 there with or without the wrap. *)
Definition sampled_colors (count : Z) : option (list vec3) :=
  if int_add count 2 =? 0 then None
  else
    let interval_length := interval_length_of count in
    Some (sample_loop (Z.to_nat count) interval_length interval_length []).

(** *** std::random_shuffle

    The random source is the sequence of values that successive calls of
    [rand()] return.  The algorithm is the library's: this is the loop of
    libstdc++, which walks the positions [1 .. n-1] and swaps position [i]
    with position [rand() % (i + 1)].  The properties below rest on one
    fact only, which every implementation shares: the shuffle permutes. *)

Definition rand_source := nat -> nat.

Definition iter_swap {A} (i j : nat) (l : list A) : list A :=
  match l !! i, l !! j with
  | Some a, Some b => <[i := b]> (<[j := a]> l)
  | _, _ => l
  end.

Fixpoint shuffle_loop {A} (n i call : nat) (rnd : rand_source) (l : list A)
    : list A :=
  match n with
  | O => l
  | S n' =>
      let j := (rnd call mod (i + 1))%nat in
      shuffle_loop n' (S i) (S call) rnd (iter_swap i j l)
  end.

Definition random_shuffle {A} (rnd : rand_source) (l : list A) : list A :=
  shuffle_loop (length l - 1) 1 0 rnd l.

Definition get_uniform_sampled_colors (rnd : rand_source) (count : Z)
    : option (list vec3) :=
  match sampled_colors count with
  | Some result => Some (random_shuffle rnd result)
  | None => None
  end.

(** ** Outcomes of code that can abort *)

Inductive outcome (A : Type) : Type :=
  | Ok (a : A)              (* ran to completion *)
  | AssertionFailure        (* an [m_assert] failed: the program aborts *)
  | Undefined.              (* behaviour not defined by the language *)
Arguments Ok {A} a.
Arguments AssertionFailure {A}.
Arguments Undefined {A}.

(** ** Scene data (tinyobj, ObjLoader and the scene object) *)

Record Vertex := { pos : fvec3; normal : fvec3; texcoord : fvec2 }.

Record mesh_t := {
  indices : list (Z * Z * Z);
  num_face_vertices : list Z;
  material_ids : list Z
}.

Record Shape := { name : string; original_index : Z; mesh : mesh_t }.

Record material_t := {
  diffuse : vec3;
  ambient : vec3;
  dissolve : Q;
  diffuse_texname : string
}.

(* [convertFace] is the loader's method that flattens face [f] of a mesh
   into its vertices; its code is the loader's, so it is a field here. *)
Record ObjLoader := {
  shapes : list Shape;
  materials : list material_t;
  original_num_shapes : Z;
  convertFace : mesh_t -> Z -> list Vertex
}.

Record Mesh := { vertices : list Vertex }.

(* [m] is the pointer [&obj_.materials[mid]], kept as the index it points
   at. *)
Record MaterialDesc := {
  mid : Z;
  label_color : vec3;
  instance_color : vec3;
  texture : Z;
  m : Z
}.

(* The scene object, with the members that this file reads or writes. *)
Record SUNCGScene := {
  obj_ : ObjLoader;
  (* Modelled from the spec: the category table ([name_from_mode_id]), the
     semantic color table ([get_color], the method of [semantic_color_])
     and the texture registry ([textures_get], the method of [textures_])
     are lookups of other classes, whose code is not here.  Each is a
     parameter: the function from the key to the value that the lookup
     returns.  What a lookup may print on its own (the spec has the color
     table report a class that it does not know) is not modelled: the
     output collected below is that of the [print_debug] calls of this
     file. *)
  name_from_mode_id : string -> string;
  get_color : string -> vec3;
  textures_get : string -> Z;
  background_color_ : vec3;
  minDepth_ : Q;
  mesh_ : list Mesh;
  materials_ : list MaterialDesc;
  boxmin_ : fvec3;
  boxmax_ : fvec3
}.

(** ** Category resolver: [get_color_by_shape_name] *)

(* [s.find(c)]: position of the first [c], [None] for [npos]. *)
Fixpoint find_char (c : ascii) (s : string) : option nat :=
  match s with
  | EmptyString => None
  | String a s' =>
      if Ascii.eqb a c then Some O
      else match find_char c s' with
           | Some k => Some (S k)
           | None => None
           end
  end.

(* [s.find(p) == 0] *)
Definition starts_with (p s : string) : bool := String.prefix p s.

(* [s.substr(n)] and [s.substr(0, n)] *)
Definition substr_from (n : nat) (s : string) : string :=
  String.substring n (String.length s - n) s.
Definition substr_to (n : nat) (s : string) : string :=
  String.substring 0 n s.

Definition newline : string := String (ascii_of_nat 10) EmptyString.

(* What [print_debug] writes when the resolver gives up. *)
Definition failed_color_message (nm : string) : string :=
  String.append "Failed to get color for shape " (String.append nm newline).

Definition wall_alias (klass : string) : string :=
  if (String.eqb klass "WallInside" || String.eqb klass "WallOutside")%bool
  then "Wall"%string else klass.

(* The name [C#suffix]. *)
Definition hash_name (C suffix : string) : string :=
  String.append C (String "#"%char suffix).

(* Returns the color together with what the function itself prints: the
   [print_debug] before its last [return]. *)
Definition get_color_by_shape_name (s : SUNCGScene) (nm : string)
    : vec3 * list string :=
  if starts_with "Model#" nm then
    let size_prefix := 6%nat in
    let model_id := substr_from size_prefix nm in
    let klass := name_from_mode_id s model_id in
    (get_color s klass, [])
  else if String.eqb nm "Ground" then
    (get_color s "Ground"%string, [])
  else
    match find_char "#"%char nm with
    | Some split =>
        let klass := wall_alias (substr_to split nm) in
        (get_color s klass, [])
    | None => (background_color_ s, [failed_color_message nm])
    end.

(** ** Scene builder: [parse_scene] and [activate] *)

Definition bind {A B} (o : outcome A) (k : A -> outcome B) : outcome B :=
  match o with
  | Ok a => k a
  | AssertionFailure => AssertionFailure
  | Undefined => Undefined
  end.

(* [v[i]] on a std::vector with an [int] index: outside the vector there is
   no defined behaviour. *)
Definition vec_index {A} (l : list A) (i : Z) : option A :=
  if i <? 0 then None else l !! Z.to_nat i.

(* [(int) v.size()] *)
Definition int_size {A} (l : list A) : Z := wrap_int (Z.of_nat (length l)).

(* glm::min(x, y) is [(y < x) ? y : x], glm::max(x, y) is [(x < y) ? y : x]:
   when [y] is NaN the comparison is false and [x] is kept. *)
Definition glm_min (x y : float) : float := if Binary32.ltb y x then y else x.
Definition glm_max (x y : float) : float := if Binary32.ltb x y then y else x.

Definition vec3_min (a b : fvec3) : fvec3 :=
  FVec3 (glm_min (f3x a) (f3x b)) (glm_min (f3y a) (f3y b))
        (glm_min (f3z a) (f3z b)).
Definition vec3_max (a b : fvec3) : fvec3 :=
  FVec3 (glm_max (f3x a) (f3x b)) (glm_max (f3y a) (f3y b))
        (glm_max (f3z a) (f3z b)).

Definition with_shapes (o : ObjLoader) (shps : list Shape) : ObjLoader :=
  {| shapes := shps; materials := materials o;
     original_num_shapes := original_num_shapes o;
     convertFace := convertFace o |}.

(* Assignment to the members that the builder writes. *)
Definition with_build (s : SUNCGScene) (o : ObjLoader) (meshes : list Mesh)
    (mats : list MaterialDesc) (bmin bmax : fvec3) : SUNCGScene :=
  {| obj_ := o;
     name_from_mode_id := name_from_mode_id s;
     get_color := get_color s;
     textures_get := textures_get s;
     background_color_ := background_color_ s;
     minDepth_ := minDepth_ s;
     mesh_ := meshes;
     materials_ := mats;
     boxmin_ := bmin;
     boxmax_ := bmax |}.

Definition add_vertex (v : Vertex) (me : Mesh) : Mesh :=
  {| vertices := vertices me ++ [v] |}.

(* The body of [for (auto& v : face)]: the vertex goes to [mesh_.back()] and
   the box grows to contain it.  A vertex is a plain aggregate of vectors,
   so [v.pos] still holds the position after [move(v)]. *)
Definition push_vertex (s : SUNCGScene) (v : Vertex) : SUNCGScene :=
  with_build s (obj_ s)
    (alter (add_vertex v) (length (mesh_ s) - 1)%nat (mesh_ s))
    (materials_ s)
    (vec3_min (boxmin_ s) (pos v))
    (vec3_max (boxmax_ s) (pos v)).

(* The body of [for (int f = 0; f < nr_face; ++f)]. *)
Definition push_face (tmesh : mesh_t) (s : SUNCGScene) (f : nat)
    : SUNCGScene :=
  foldl push_vertex s (convertFace (obj_ s) tmesh (Z.of_nat f)).

(* The body of the loop over [obj_.shapes]; [printed] collects what
   [print_debug] wrote so far.  [obj_.materials[mid]] is indexed when the
   descriptor is made: outside the materials there is no defined
   behaviour. *)
Definition parse_shape (rand_instance_colors : list vec3)
    (st : SUNCGScene * list string) (shp : Shape)
    : outcome (SUNCGScene * list string) :=
  let '(s, printed) := st in
  let '(label_color, msgs) := get_color_by_shape_name s (name shp) in
  match vec_index rand_instance_colors (original_index shp) with
  | None => Undefined
  | Some instance_color =>
      let tmesh := mesh shp in
      let nr_face := int_size (num_face_vertices tmesh) in
      let matids := material_ids tmesh in
      if negb (int_size matids =? nr_face) then AssertionFailure
      else if negb (0 <? nr_face) then AssertionFailure
      else
        match vec_index matids 0 with
        | None => Undefined
        | Some mid =>
            match vec_index (materials (obj_ s)) mid with
            | None => Undefined
            | Some _ =>
                let s1 :=
                  with_build s (obj_ s)
                    (mesh_ s ++ [ {| vertices := [] |} ])
                    (materials_ s ++
                       [ {| mid := mid; label_color := label_color;
                            instance_color := instance_color;
                            texture := 0; m := mid |} ])
                    (boxmin_ s) (boxmax_ s) in
                Ok (foldl (push_face tmesh) s1 (seq 0 (Z.to_nat nr_face)),
                    printed ++ msgs)
            end
        end
  end.

Fixpoint parse_shapes (rand_instance_colors : list vec3) (shps : list Shape)
    (st : SUNCGScene * list string) : outcome (SUNCGScene * list string) :=
  match shps with
  | [] => Ok st
  | shp :: rest =>
      bind (parse_shape rand_instance_colors st shp)
           (parse_shapes rand_instance_colors rest)
  end.

Definition parse_scene (rnd : rand_source) (s : SUNCGScene)
    : outcome (SUNCGScene * list string) :=
  let x := FLT_MAX in
  let bmin := FVec3 x x x in
  let x := FLT_LOWEST in
  let bmax := FVec3 x x x in
  let s0 := with_build s (obj_ s) (mesh_ s) (materials_ s) bmin bmax in
  match get_uniform_sampled_colors rnd (original_num_shapes (obj_ s0)) with
  | None => Undefined
  | Some rand_instance_colors =>
      bind (parse_shapes rand_instance_colors (shapes (obj_ s0)) (s0, []))
        (fun '(s1, printed) =>
           Ok (with_build s1 (with_shapes (obj_ s1) []) (mesh_ s1)
                 (materials_ s1) (boxmin_ s1) (boxmax_ s1),
               printed))
  end.

Definition set_texture (md : MaterialDesc) (t : Z) : MaterialDesc :=
  {| mid := mid md; label_color := label_color md;
     instance_color := instance_color md; texture := t; m := m md |}.

(* The loop of [activate], for the indices [i .. i + n - 1]. *)
Fixpoint activate_loop (n : nat) (i : Z) (s : SUNCGScene)
    : outcome SUNCGScene :=
  match n with
  | O => Ok s
  | S n' =>
      match vec_index (materials_ s) i, vec_index (mesh_ s) i with
      | Some material, Some _ =>
          match vec_index (materials (obj_ s)) (m material) with
          | None => Undefined
          | Some mat =>
              let material' :=
                set_texture material (textures_get s (diffuse_texname mat)) in
              activate_loop n' (int_add i 1)
                (with_build s (obj_ s) (mesh_ s)
                   (<[Z.to_nat i := material']> (materials_ s))
                   (boxmin_ s) (boxmax_ s))
          end
      | _, _ => Undefined
      end
  end.

Definition activate (s : SUNCGScene) : outcome SUNCGScene :=
  let nr_mesh := int_size (mesh_ s) in
  if negb (nr_mesh =? int_size (materials_ s)) then AssertionFailure
  else activate_loop (Z.to_nat nr_mesh) 0 s.

(** ** Fragment shader: [SUNCGShader::fShader] *)

(* GLSL [min(x, y)] returns [y] if [y < x] and [x] otherwise, [max(x, y)]
   returns [y] if [x < y] and [x] otherwise; here on the rationals that
   stand for colors. *)
Definition fmin (x y : Q) : Q :=
  match (y ?= x)%Q with Lt => y | _ => x end.
Definition fmax (x y : Q) : Q :=
  match (x ?= y)%Q with Lt => y | _ => x end.

Module SUNCGShader.

Local Open Scope Q_scope.

Definition NEAR : Q := 1 # 10.
Definition FAR : Q := 100.
Definition INV_NEAR : Q := 1 / NEAR.
Definition INV_FAR : Q := 1 / FAR.
Definition DEPTH_SCALE : Q := 20.

Record uniforms := {
  mode : N;
  Kd : vec3;
  Ka : vec3;
  eye : vec3;
  dissolve : Q;
  texture_diffuse : vec2 -> vec4;
  minDepth : Q
}.

(* The interpolated inputs of a fragment and [gl_FragCoord.z]. *)
Record fragment := {
  pos : vec3;
  normal : vec3;
  texcoord : vec2;
  FragCoord_z : Q
}.

(* Convert depth buffer value to inverse depth. *)
Definition InverseDepth (d : Q) : Q := INV_NEAR + d * (INV_FAR - INV_NEAR).

(* Convert depth buffer value to true depth. *)
Definition TrueDepth (d : Q) : Q := 1 / InverseDepth d.

(* GLSL built-ins on rationals. *)
Definition floor (x : Q) : Q := inject_Z (Qfloor x).
Definition clamp (x lo hi : Q) : Q := fmin (fmax x lo) hi.
Definition dot (a b : vec3) : Q :=
  v3x a * v3x b + v3y a * v3y b + v3z a * v3z b.
Definition sub3 (a b : vec3) : vec3 :=
  Vec3 (v3x a - v3x b) (v3y a - v3y b) (v3z a - v3z b).
Definition mul3 (a b : vec3) : vec3 :=
  Vec3 (v3x a * v3x b) (v3y a * v3y b) (v3z a * v3z b).
Definition scale3 (a : vec3) (k : Q) : vec3 :=
  Vec3 (v3x a * k) (v3y a * k) (v3z a * k).
Definition add3 (a b : vec3) : vec3 :=
  Vec3 (v3x a + v3x b) (v3y a + v3y b) (v3z a + v3z b).
Definition clamp3 (a : vec3) (lo hi : Q) : vec3 :=
  Vec3 (clamp (v3x a) lo hi) (clamp (v3y a) lo hi) (clamp (v3z a) lo hi).
Definition xyz (a : vec4) : vec3 := Vec3 (v4x a) (v4y a) (v4z a).
Definition vec4_of (c : vec3) (w : Q) : vec4 :=
  Vec4 (v3x c) (v3y c) (v3z c) w.

(* The branch [mode == 4u], with exact arithmetic: what [main] hands on in
   this mode.  The values that the GPU computes are those of
   [SUNCGShader32.inverse_depth_color] below. *)
Definition inverse_depth_color (min_depth z : Q) : vec4 :=
  let invDepth := InverseDepth z in
  let f := 65535 * min_depth * invDepth + (1 # 2) in
  let ms := floor (f / 256) in
  let ls := floor (f - ms * 256) in
  Vec4 (ms / 255) (ls / 255) 0 1.

(* [main], returning [fragcolor].  [normalize] is the GLSL built-in, which
   has no rational model and is a parameter.  With a mode above 4 the
   local [color] is read before it is written: [None]. *)
Definition main (normalize : vec3 -> vec3) (u : uniforms) (fr : fragment)
    : option vec4 :=
  if (mode u =? 2)%N then
    Some (vec4_of (Kd u) 1)
  else if (mode u =? 3)%N then
    let scaledDepth := TrueDepth (FragCoord_z fr) / DEPTH_SCALE in
    Some (vec4_of (Vec3 scaledDepth scaledDepth scaledDepth) 1)
  else if (mode u =? 4)%N then
    Some (inverse_depth_color (minDepth u) (FragCoord_z fr))
  else
    let alpha := dissolve u in
    let '(color, alpha) :=
      match mode u with
      | 0%N =>
          let texcolor := texture_diffuse u (texcoord fr) in
          (Some (mul3 (Kd u) (xyz texcolor)), fmin (v4w texcolor) alpha)
      | 1%N => (Some (Kd u), alpha)
      | _ => (None, alpha)
      end in
    match color with
    | None => None
    | Some color =>
        let in_vec := normalize (sub3 (eye u) (pos fr)) in
        let scale := fmax (dot in_vec (normal fr)) (3 # 10) in
        let ambient := scale3 (Ka u) (1 # 10) in
        let color := add3 (scale3 color scale) ambient in
        let color := clamp3 color 0 1 in
        Some (vec4_of color alpha)
    end.

End SUNCGShader.

(** *** The inverse-depth branch in single precision

    The constants, [InverseDepth] and the branch [mode == 4u] once more, as
    the GPU computes them: every literal and every operation is a binary32
    one.  The literal [0.1f] is the float nearest to 1/10. *)

Module SUNCGShader32.

Import Binary32.

Definition NEAR : float := div (of_Z 1) (of_Z 10).
Definition FAR : float := of_Z 100.
Definition INV_NEAR : float := div (of_Z 1) NEAR.
Definition INV_FAR : float := div (of_Z 1) FAR.

(* Convert depth buffer value to inverse depth. *)
Definition InverseDepth (d : float) : float :=
  add INV_NEAR (mul d (sub INV_FAR INV_NEAR)).

(* The locals [f], [ms] and [ls] of the branch. *)
Definition f_of (min_depth invDepth : float) : float :=
  add (mul (mul (of_Z 65535) min_depth) invDepth) (div (of_Z 1) (of_Z 2)).
Definition ms_of (f : float) : float := floor (div f (of_Z 256)).
Definition ls_of (f ms : float) : float :=
  floor (sub f (mul ms (of_Z 256))).

Definition inverse_depth_color (min_depth z : float) : fvec4 :=
  let invDepth := InverseDepth z in
  let f := f_of min_depth invDepth in
  let ms := ms_of f in
  let ls := ls_of f ms in
  FVec4 (div ms (of_Z 255)) (div ls (of_Z 255)) (of_Z 0) (of_Z 1).

End SUNCGShader32.

(** ** The 8-bit render target and the consumer's decoding

    A color written to an 8-bit normalized channel is clamped to [0, 1],
    scaled by 255 and rounded to the nearest integer. *)

Record pixel := { chR : Z; chG : Z; chB : Z; chA : Z }.

Definition unorm8 (c : Q) : Z :=
  Qfloor (SUNCGShader.clamp c 0 1 * 255 + (1 # 2)).

Definition store_pixel (c : vec4) : pixel :=
  {| chR := unorm8 (v4x c); chG := unorm8 (v4y c);
     chB := unorm8 (v4z c); chA := unorm8 (v4w c) |}.

(* depth_code = 256*R + G, inverse_depth = depth_code / (65535 * minDepth) *)
Definition depth_code (p : pixel) : Z := 256 * chR p + chG p.

Definition decode_inverse_depth (min_depth : Q) (p : pixel) : Q :=
  (inject_Z (depth_code p) / (65535 * min_depth))%Q.

(* The same for a color computed in single precision.  The conversion is
   defined on the value of the float; a channel that is NaN or infinite is
   left without a result. *)
Definition store_pixel32 (c : fvec4) : option pixel :=
  match Binary32.to_Q (f4x c), Binary32.to_Q (f4y c),
        Binary32.to_Q (f4z c), Binary32.to_Q (f4w c) with
  | Some r, Some g, Some b, Some a => Some (store_pixel (Vec4 r g b a))
  | _, _, _, _ => None
  end.

(* The pixel that a fragment leaves in the target in shading mode 4. *)
Definition inverse_depth_pixel (min_depth z : float) : option pixel :=
  store_pixel32 (SUNCGShader32.inverse_depth_color min_depth z).


(** ** Model filter: [filter_models] *)

#[global] Instance string_eq_dec : EqDecision string := String.string_dec.

(* The files as [std::ifstream] finds them: [None] for a file that cannot be
   opened, otherwise the lines that successive [std::getline] calls read. *)
Definition file_system := string -> option (list string).

Definition could_not_open_message (file : string) : string :=
  String.append "Could not open file " (String.append file newline).

(* [while (std::getline(blf, str)) blk_models.insert("Model#"+str);] *)
Definition read_blacklist (lines : list string) : listset string :=
  foldl (fun blk_models str => blk_models ∪ {[ String.append "Model#" str ]})
        ∅ lines.

(* [erase(remove_if(...))] keeps, in their order, the shapes whose name is not
   found in [blk_models]. *)
Definition filter_models (fs : file_system) (model_blacklist_file : string)
    (s : SUNCGScene) : SUNCGScene * list string :=
  match fs model_blacklist_file with
  | None => (s, [could_not_open_message model_blacklist_file])
  | Some lines =>
      let blk_models := read_blacklist lines in
      (with_build s
         (with_shapes (obj_ s)
            (filter (fun shape => name shape ∉ blk_models) (shapes (obj_ s))))
         (mesh_ s) (materials_ s) (boxmin_ s) (boxmax_ s),
       [])
  end.

(** ** Render orchestrator: [draw] *)

(* Modelled from the spec: the scene's [RenderMode] enumeration is declared
   in the header; the spec names its five values.  [OtherMode] stands for any
   other value that the variable [mode_] may hold. *)
Inductive RenderMode :=
  | RGB | SEMANTIC | INSTANCE | DEPTH | INVDEPTH | OtherMode (code : Z).

Module ShaderMode.

(* Modelled from the spec: [SUNCGShader::RenderMode] is declared in the
   header; its values are the mode numbers that the shader source tests. *)
Inductive t := TEXTURE_LIGHTING | LIGHTING | CONSTANT | DEPTH | INVDEPTH.

(* [static_cast<GLuint>(mode)] *)
Definition to_GLuint (mode : t) : N :=
  match mode with
  | TEXTURE_LIGHTING => 0
  | LIGHTING => 1
  | CONSTANT => 2
  | DEPTH => 3
  | INVDEPTH => 4
  end%N.

End ShaderMode.

(* The uniform locations that the constructor of [SUNCGShader] looks up. *)
Inductive uniform_loc :=
  | Kd_loc | Ka_loc | mode_loc | texture_loc | dissolve_loc | minDepth_loc.

(* The calls that [draw] makes, in the order in which it makes them.
   Modelled from the spec: [TextureGuard] is declared in a header; it holds
   the texture for the scope of one object's draw call. *)
Inductive gl_call :=
  | glClearColor (r g b a : Q)
  | glClear
  | glUniform3fv (loc : uniform_loc) (v : vec3)
  | glUniform1f (loc : uniform_loc) (x : Q)
  | glUniform1ui (loc : uniform_loc) (n : N)
  | glUniform1i (loc : uniform_loc) (n : Z)
  | glActiveTexture (unit : Z)
  | TextureGuard_enter (tex : Z)
  | TextureGuard_leave (tex : Z)
  | mesh_draw (i : Z).

Inductive draw_result :=
  | Drawn (calls : list gl_call)
  | Thrown (calls : list gl_call) (what : string)  (* std::runtime_error *)
  | DrawUndefined.

(* The body of the loop in RGB mode, for [mesh_[i]]. *)
Definition draw_rgb_body (s : SUNCGScene) (i : Z) : option (list gl_call) :=
  match vec_index (materials_ s) i, vec_index (mesh_ s) i with
  | Some material, Some _ =>
      match vec_index (materials (obj_ s)) (m material) with
      | None => None
      | Some mat =>
          let uniforms :=
            [ glUniform3fv Kd_loc (diffuse mat);
              glUniform3fv Ka_loc (ambient mat);
              glUniform1f dissolve_loc (dissolve mat) ] in
          let mode := ShaderMode.LIGHTING in
          let '(texturing, mode) :=
            if texture material =? 0 then ([], mode)
            else ([ glActiveTexture 0; glUniform1i texture_loc 0 ],
                  ShaderMode.TEXTURE_LIGHTING) in
          Some (uniforms ++ texturing ++
                [ glUniform1ui mode_loc (ShaderMode.to_GLuint mode);
                  TextureGuard_enter (texture material);
                  mesh_draw i;
                  TextureGuard_leave (texture material) ])
      end
  | _, _ => None
  end.

(* The body of the loop in SEMANTIC and INSTANCE mode. *)
Definition draw_flat_body (s : SUNCGScene) (semantic : bool) (i : Z)
    : option (list gl_call) :=
  let mode := ShaderMode.CONSTANT in
  match vec_index (materials_ s) i, vec_index (mesh_ s) i with
  | Some material, Some _ =>
      let color :=
        if semantic then label_color material else instance_color material in
      Some [ glUniform3fv Kd_loc color;
             glUniform1ui mode_loc (ShaderMode.to_GLuint mode);
             mesh_draw i ]
  | _, _ => None
  end.

(* The body of the loop in DEPTH and INVDEPTH mode. *)
Definition draw_plain_body (s : SUNCGScene) (i : Z) : option (list gl_call) :=
  match vec_index (mesh_ s) i with
  | Some _ => Some [ mesh_draw i ]
  | None => None
  end.

(* [for (int i = 0; i < nr_mesh; ++i) body]: [n] iterations remain. *)
Fixpoint draw_loop (body : Z -> option (list gl_call)) (n : nat) (i : Z)
    : option (list gl_call) :=
  match n with
  | O => Some []
  | S n' =>
      match body i with
      | None => None
      | Some calls =>
          match draw_loop body n' (int_add i 1) with
          | None => None
          | Some rest => Some (calls ++ rest)
          end
      end
  end.

Definition draw (s : SUNCGScene) (mode_ : RenderMode) : draw_result :=
  let clear :=
    [ glClearColor (v3x (background_color_ s)) (v3y (background_color_ s))
        (v3z (background_color_ s)) 1;
      glClear ] in
  let nr_mesh := int_size (mesh_ s) in
  let loop prelude body :=
    match draw_loop body (Z.to_nat nr_mesh) 0 with
    | Some calls => Drawn (clear ++ prelude ++ calls)
    | None => DrawUndefined
    end in
  match mode_ with
  | RGB => loop [] (draw_rgb_body s)
  | SEMANTIC => loop [] (draw_flat_body s true)
  | INSTANCE => loop [] (draw_flat_body s false)
  | DEPTH =>
      loop [ glUniform1ui mode_loc (ShaderMode.to_GLuint ShaderMode.DEPTH) ]
           (draw_plain_body s)
  | INVDEPTH =>
      loop [ glUniform1ui mode_loc
               (ShaderMode.to_GLuint ShaderMode.INVDEPTH);
             glUniform1f minDepth_loc (minDepth_ s) ]
           (draw_plain_body s)
  | OtherMode _ => Thrown clear "unknown render mode"
  end.

(** *** What a draw call sees

    The uniforms of the shader program as the calls leave them.  A call with
    a location of another type changes nothing. *)

Record uniform_state := {
  us_mode : N;
  us_Kd : vec3;
  us_Ka : vec3;
  us_dissolve : Q;
  us_minDepth : Q;
  us_texture : Z
}.

Definition apply_call (st : uniform_state) (c : gl_call) : uniform_state :=
  match c with
  | glUniform3fv Kd_loc v =>
      {| us_mode := us_mode st; us_Kd := v; us_Ka := us_Ka st;
         us_dissolve := us_dissolve st; us_minDepth := us_minDepth st;
         us_texture := us_texture st |}
  | glUniform3fv Ka_loc v =>
      {| us_mode := us_mode st; us_Kd := us_Kd st; us_Ka := v;
         us_dissolve := us_dissolve st; us_minDepth := us_minDepth st;
         us_texture := us_texture st |}
  | glUniform1f dissolve_loc x =>
      {| us_mode := us_mode st; us_Kd := us_Kd st; us_Ka := us_Ka st;
         us_dissolve := x; us_minDepth := us_minDepth st;
         us_texture := us_texture st |}
  | glUniform1f minDepth_loc x =>
      {| us_mode := us_mode st; us_Kd := us_Kd st; us_Ka := us_Ka st;
         us_dissolve := us_dissolve st; us_minDepth := x;
         us_texture := us_texture st |}
  | glUniform1ui mode_loc n =>
      {| us_mode := n; us_Kd := us_Kd st; us_Ka := us_Ka st;
         us_dissolve := us_dissolve st; us_minDepth := us_minDepth st;
         us_texture := us_texture st |}
  | glUniform1i texture_loc n =>
      {| us_mode := us_mode st; us_Kd := us_Kd st; us_Ka := us_Ka st;
         us_dissolve := us_dissolve st; us_minDepth := us_minDepth st;
         us_texture := n |}
  | _ => st
  end.

(* The meshes drawn by a sequence of calls, each with the uniforms that its
   draw call sees. *)
Fixpoint replay (st : uniform_state) (calls : list gl_call)
    : list (Z * uniform_state) :=
  match calls with
  | [] => []
  | mesh_draw i :: rest => (i, st) :: replay st rest
  | c :: rest => replay (apply_call st c) rest
  end.

(* The shader run on a fragment of a mesh drawn under [st]; the eye position
   and the texture image come from elsewhere. *)
Definition shade (normalize : vec3 -> vec3) (eye : vec3)
    (image : vec2 -> vec4) (st : uniform_state) (fr : SUNCGShader.fragment)
    : option vec4 :=
  SUNCGShader.main normalize
    {| SUNCGShader.mode := us_mode st; SUNCGShader.Kd := us_Kd st;
       SUNCGShader.Ka := us_Ka st; SUNCGShader.eye := eye;
       SUNCGShader.dissolve := us_dissolve st;
       SUNCGShader.texture_diffuse := image;
       SUNCGShader.minDepth := us_minDepth st |}
    fr.

(** ** Vocabulary of the statements *)

(* [x <= y] on floats; it does not hold when [x] or [y] is NaN. *)
Definition fle (x y : float) : Prop := Binary32.leb x y = true.

(* [x] is not NaN. *)
Definition is_number (x : float) : Prop := Binary32.is_nan x = false.

(* The value of [x] is the rational [q]. *)
Definition has_value (x : float) (q : Q) : Prop :=
  match Binary32.to_Q x with
  | Some q' => (q' == q)%Q
  | None => False
  end.

Definition vec3_le (a b : fvec3) : Prop :=
  fle (f3x a) (f3x b) /\ fle (f3y a) (f3y b) /\ fle (f3z a) (f3z b).

(* The three axes: the box is computed axis by axis. *)
Inductive axis := X_axis | Y_axis | Z_axis.

Definition coord (a : axis) (p : fvec3) : float :=
  match a with X_axis => f3x p | Y_axis => f3y p | Z_axis => f3z p end.

(* A float that is neither NaN nor infinite. *)
Definition finite (x : float) : Prop := fle FLT_LOWEST x /\ fle x FLT_MAX.

Definition finite_pos (v : Vertex) : Prop :=
  finite (f3x (pos v)) /\ finite (f3y (pos v)) /\ finite (f3z (pos v)).

(* Coordinate [a] of the box corner [b] equals (IEEE [==]) that of some
   vertex. *)
Definition attained_by (a : axis) (b : fvec3) (vs : list Vertex) : Prop :=
  exists v, v ∈ vs /\ Binary32.eqb (coord a b) (coord a (pos v)) = true.

(* The vertices of a mesh, in the order in which the builder visits them. *)
Definition face_vertices (o : ObjLoader) (tmesh : mesh_t) : list Vertex :=
  concat (map (fun f => convertFace o tmesh (Z.of_nat f))
              (seq 0 (Z.to_nat (int_size (num_face_vertices tmesh))))).

Definition scene_vertices (o : ObjLoader) (shps : list Shape) : list Vertex :=
  concat (map (fun shp => face_vertices o (mesh shp)) shps).

(* [md] is the descriptor that the builder makes for [shp]. *)
Definition descriptor_of (s : SUNCGScene) (palette : list vec3) (shp : Shape)
    (md : MaterialDesc) : Prop :=
  vec_index (material_ids (mesh shp)) 0 = Some (mid md) /\
  label_color md = fst (get_color_by_shape_name s (name shp)) /\
  vec_index palette (original_index shp) = Some (instance_color md) /\
  texture md = 0 /\
  m md = mid md.

(* The members that the builder only reads. *)
Definition same_tables (s s' : SUNCGScene) : Prop :=
  obj_ s' = obj_ s /\
  name_from_mode_id s' = name_from_mode_id s /\
  get_color s' = get_color s /\
  textures_get s' = textures_get s /\
  background_color_ s' = background_color_ s /\
  minDepth_ s' = minDepth_ s.

(* The material id of the first face of [shp] is an index into the
   loader's materials. *)
Definition first_material_in_range (s : SUNCGScene) (shp : Shape) : Prop :=
  exists first,
    material_ids (mesh shp) !! 0%nat = Some first /\
    0 <= first < Z.of_nat (length (materials (obj_ s))).

(* The preconditions of the builder on one shape. *)
Definition well_formed_shape (s : SUNCGScene) (palette : list vec3)
    (shp : Shape) : Prop :=
  is_Some (vec_index palette (original_index shp)) /\
  int_size (material_ids (mesh shp)) = int_size (num_face_vertices (mesh shp))
  /\ 0 < int_size (num_face_vertices (mesh shp)) /\
  first_material_in_range s shp.

(* What the two assertions reject. *)
Definition fails_assertion (shp : Shape) : Prop :=
  int_size (material_ids (mesh shp)) <> int_size (num_face_vertices (mesh shp))
  \/ int_size (num_face_vertices (mesh shp)) <= 0.

(* The material id of the first face, if there is one, is an index into the
   loader's materials. *)
Definition first_material_valid (s : SUNCGScene) (shp : Shape) : Prop :=
  forall first,
    material_ids (mesh shp) !! 0%nat = Some first ->
    0 <= first < Z.of_nat (length (materials (obj_ s))).

(* The names for which the resolver has no rule. *)
Definition unparseable (nm : string) : bool :=
  negb (starts_with "Model#" nm) && negb (String.eqb nm "Ground") &&
  match find_char "#"%char nm with Some _ => false | None => true end.

(* [md'] is [md] after [activate]: its texture is the one registered under
   the texture name of the material that [md] points at. *)
Definition activated (s : SUNCGScene) (md md' : MaterialDesc) : Prop :=
  exists mat,
    vec_index (materials (obj_ s)) (m md) = Some mat /\
    md' = set_texture md (textures_get s (diffuse_texname mat)).

(* The material pointer of [md] points into the loader's materials. *)
Definition points_at_material (s : SUNCGScene) (md : MaterialDesc) : Prop :=
  is_Some (vec_index (materials (obj_ s)) (m md)).

(** ** Sample scenes *)

Definition sample_colors (klass : string) : vec3 :=
  if String.eqb klass "Wall" then Vec3 1 0 0
  else if String.eqb klass "Ground" then Vec3 0 1 0
  else if String.eqb klass "Chair" then Vec3 0 0 1
  else Vec3 0 0 0.

Definition sample_category (model_id : string) : string :=
  if String.eqb model_id "5" then "Chair"%string else "Unknown"%string.

(* The coordinates of the sample vertices: the floats of the integers
   0 .. 9, and 0 for every other index. *)
Definition sample_coordinate (k : Z) : float :=
  match k with
  | 1 => S754_finite false 8388608 (-23)
  | 2 => S754_finite false 8388608 (-22)
  | 3 => S754_finite false 12582912 (-22)
  | 4 => S754_finite false 8388608 (-21)
  | 5 => S754_finite false 10485760 (-21)
  | 6 => S754_finite false 12582912 (-21)
  | 7 => S754_finite false 14680064 (-21)
  | 8 => S754_finite false 8388608 (-20)
  | 9 => S754_finite false 9437184 (-20)
  | _ => S754_zero false
  end.

(* One vertex per index triple of the face, placed at that triple. *)
Definition sample_convertFace (tmesh : mesh_t) (f : Z) : list Vertex :=
  match vec_index (indices tmesh) f with
  | Some (a, b, c) =>
      [ {| pos := FVec3 (sample_coordinate a) (sample_coordinate b)
                    (sample_coordinate c);
           normal := FVec3 (S754_zero false) (S754_zero false)
                       (sample_coordinate 1);
           texcoord := FVec2 (S754_zero false) (S754_zero false) |} ]
  | None => []
  end.

Definition sample_material : material_t :=
  {| diffuse := Vec3 1 1 1; ambient := Vec3 0 0 0; dissolve := 1;
     diffuse_texname := EmptyString |}.

Definition sample_shape (nm : string) (k : Z) (tris : list (Z * Z * Z))
    (ids : list Z) : Shape :=
  {| name := nm; original_index := k;
     mesh := {| indices := tris;
                num_face_vertices := map (fun _ => 3) tris;
                material_ids := ids |} |}.

Definition scene_of (shps : list Shape) (n : Z) : SUNCGScene :=
  {| obj_ := {| shapes := shps;
                materials := [sample_material; sample_material];
                original_num_shapes := n;
                convertFace := sample_convertFace |};
     name_from_mode_id := sample_category;
     get_color := sample_colors;
     textures_get := fun _ => 0;
     background_color_ := Vec3 0 0 0;
     minDepth_ := 1 # 10;
     mesh_ := [];
     materials_ := [];
     boxmin_ := FVec3 (Binary32.of_Z 0) (Binary32.of_Z 0) (Binary32.of_Z 0);
     boxmax_ := FVec3 (Binary32.of_Z 0) (Binary32.of_Z 0) (Binary32.of_Z 0) |}.

(* Four shapes were loaded; the one with original index 1 was filtered out. *)
Definition sample_scene : SUNCGScene :=
  scene_of
    [ sample_shape "Model#5" 0 [(1, 2, 3); (4, 0, 1)] [0; 0];
      sample_shape "Ground" 2 [(0, 0, 0); (9, 9, 0)] [1; 1];
      sample_shape "WallInside#1" 3 [(0, 5, 7)] [0] ]
    4.


(* A scene whose only shape has an unparseable name. *)
Definition garbage_scene : SUNCGScene :=
  scene_of [ sample_shape "garbage" 0 [(1, 2, 3)] [0] ] 1.

(* A loader whose faces have one vertex each, with an x coordinate that is
   not a number. *)
Definition nan_vertex : Vertex :=
  {| pos := FVec3 S754_nan (Binary32.of_Z 1) (Binary32.of_Z 2);
     normal := FVec3 (Binary32.of_Z 0) (Binary32.of_Z 0) (Binary32.of_Z 1);
     texcoord := FVec2 (Binary32.of_Z 0) (Binary32.of_Z 0) |}.

Definition nan_scene : SUNCGScene :=
  let s := scene_of [ sample_shape "Wall#1" 0 [(1, 2, 3)] [0] ] 1 in
  with_build s
    {| shapes := shapes (obj_ s); materials := materials (obj_ s);
       original_num_shapes := original_num_shapes (obj_ s);
       convertFace := fun _ _ => [nan_vertex] |}
    (mesh_ s) (materials_ s) (boxmin_ s) (boxmax_ s).

(* A shape with two faces and one material id. *)
Definition mismatched_ids_scene : SUNCGScene :=
  scene_of [ sample_shape "Wall#1" 0 [(1, 2, 3); (4, 5, 6)] [0] ] 1.

(* A scene with a shape that has no face. *)
Definition empty_shape_scene : SUNCGScene :=
  scene_of [ sample_shape "Wall#1" 0 [(1, 2, 3)] [0];
             sample_shape "Door#2" 1 [] [] ] 2.

Definition sample_rand : rand_source := fun k => (7 * k + 3)%nat.

(* What the builder leaves, for a scene on which it completes. *)
Definition built (rnd : rand_source) (s : SUNCGScene)
    : SUNCGScene * list string :=
  match parse_scene rnd s with
  | Ok r => r
  | _ => (s, [])
  end.

Definition sample_built : SUNCGScene := (built sample_rand sample_scene).1.
Definition sample_printed : list string :=
  (built sample_rand sample_scene).2.

Definition sample_vertices : list Vertex :=
  scene_vertices (obj_ sample_scene) (shapes (obj_ sample_scene)).

(* The palette that the sample random source gives for [n] shapes. *)
Definition sample_palette (n : Z) : list vec3 :=
  default [] (get_uniform_sampled_colors sample_rand n).

(* A fragment at depth buffer value [z]. *)
Definition fragment_at (z : Q) : SUNCGShader.fragment :=
  {| SUNCGShader.pos := Vec3 0 0 1; SUNCGShader.normal := Vec3 0 0 1;
     SUNCGShader.texcoord := Vec2 0 0; SUNCGShader.FragCoord_z := z |}.

(* A blacklist file with the model ids 5 and 7; no other file opens. *)
Definition blacklist_txt : string := "blacklist.txt".

Definition sample_files : file_system :=
  fun file =>
    if String.eqb file blacklist_txt then Some ["5"; "7"]%string else None.

(* The sample scene after the filter: the model 5 is gone. *)
Definition sample_filtered : SUNCGScene :=
  (filter_models sample_files blacklist_txt sample_scene).1.

(* A scene whose shape has faces without a material: tinyobj gives them the
   material id -1. *)
Definition no_material_scene : SUNCGScene :=
  scene_of [ sample_shape "Wall#1" 0 [(1, 2, 3)] [-1] ] 1.

(* Shader inputs in any mode. *)
Definition shader_uniforms (mode : N) (min_depth : Q) : SUNCGShader.uniforms :=
  {| SUNCGShader.mode := mode; SUNCGShader.Kd := Vec3 1 (1 # 2) 0;
     SUNCGShader.Ka := Vec3 1 1 1; SUNCGShader.eye := Vec3 0 0 0;
     SUNCGShader.dissolve := 1;
     SUNCGShader.texture_diffuse := fun _ => Vec4 1 1 1 (1 # 2);
     SUNCGShader.minDepth := min_depth |}.

(* A scene with an untextured and a textured material, built and activated;
   the texture registry has the texture 7 under every non-empty name. *)
Definition wood_material : material_t :=
  {| diffuse := Vec3 (1 # 2) (1 # 4) 0; ambient := Vec3 1 1 1;
     dissolve := 1 # 2; diffuse_texname := "wood.jpg" |}.

Definition textured_scene : SUNCGScene :=
  {| obj_ := {| shapes := [ sample_shape "Wall#1" 0 [(1, 2, 3)] [0];
                            sample_shape "Door#2" 1 [(4, 5, 6)] [1] ];
                materials := [sample_material; wood_material];
                original_num_shapes := 2;
                convertFace := sample_convertFace |};
     name_from_mode_id := sample_category;
     get_color := sample_colors;
     textures_get := fun nm => if String.eqb nm "" then 0 else 7;
     background_color_ := Vec3 0 0 0;
     minDepth_ := 1 # 10;
     mesh_ := [];
     materials_ := [];
     boxmin_ := FVec3 (Binary32.of_Z 0) (Binary32.of_Z 0) (Binary32.of_Z 0);
     boxmax_ := FVec3 (Binary32.of_Z 0) (Binary32.of_Z 0) (Binary32.of_Z 0) |}.

Definition activated_scene (s : SUNCGScene) : SUNCGScene :=
  match activate (built sample_rand s).1 with
  | Ok s' => s'
  | _ => s
  end.

(** * Properties *)

(** ** Single-precision floats *)

(* The limits are the largest finite float and its opposite. *)
Example float_limits :
  FLT_MAX = SFmax_float Binary32.prec Binary32.emax /\
  FLT_LOWEST = SFopp FLT_MAX /\
  valid_binary Binary32.prec Binary32.emax FLT_MAX = true /\
  has_value FLT_MAX (inject_Z 340282346638528859811704183484516925440).
Proof. repeat split; vm_compute; reflexivity. Qed.

(* The constants of the shader: [0.1f] is 13421773 / 2^27, its inverse
   rounds to 10, and [1.0f / 100.0f] is 10737418 / 2^30. *)
Example shader_constants :
  has_value SUNCGShader32.NEAR (13421773 # 134217728) /\
  has_value SUNCGShader32.INV_NEAR 10 /\
  has_value SUNCGShader32.FAR 100 /\
  has_value SUNCGShader32.INV_FAR (10737418 # 1073741824).
Proof. repeat split; vm_compute; reflexivity. Qed.

Example floor_samples :
  Binary32.floor (Binary32.div (Binary32.of_Z 7) (Binary32.of_Z 2))
  = Binary32.of_Z 3 /\
  Binary32.floor (Binary32.div (Binary32.of_Z (-7)) (Binary32.of_Z 2))
  = Binary32.of_Z (-4) /\
  Binary32.floor (Binary32.div (Binary32.of_Z 1) (Binary32.of_Z 2))
  = S754_zero false /\
  Binary32.floor (Binary32.of_Z 65537) = Binary32.of_Z 65537.
Proof. repeat split; vm_compute; reflexivity. Qed.

(** ** Machine integers *)

Lemma wrap_int_small z :
  -2147483648 <= z <= INT_MAX -> wrap_int z = z.
Proof.
  unfold wrap_int, INT_MAX. intros Hz.
  rewrite Z.mod_small; lia.
Qed.

Lemma int_div_nonneg a b :
  0 <= a <= INT_MAX -> 0 < b -> int_div a b = a / b.
Proof.
  intros Ha Hb. unfold int_div.
  rewrite Z.quot_div_nonneg by lia.
  assert (0 <= a / b) by (apply Z.div_pos; lia).
  assert (a / b <= a) by (apply Z.div_le_upper_bound; nia).
  apply wrap_int_small. unfold INT_MAX in *. lia.
Qed.

Lemma int_rem_nonneg a b : 0 <= a -> 0 < b -> int_rem a b = a mod b.
Proof. intros. unfold int_rem. apply Z.rem_mod_nonneg; lia. Qed.

(* The spacing of the allocator is the floor of 256^3 / (count + 2), also
   for the two counts at which [count + 2] wraps around. *)
Lemma interval_length_floor count :
  0 <= count <= INT_MAX ->
  interval_length_of count = color_cube / (count + 2).
Proof.
  intros Hc. unfold interval_length_of.
  destruct (Z_le_gt_dec (count + 2) INT_MAX) as [Hs|Hl].
  - unfold int_add. rewrite wrap_int_small by (unfold INT_MAX in *; lia).
    apply int_div_nonneg; [unfold color_cube, INT_MAX; lia | lia].
  - unfold INT_MAX in *.
    assert (count = 2147483646 \/ count = 2147483647) as [-> | ->] by lia;
      reflexivity.
Qed.

Lemma interval_length_bounds count :
  0 <= count <= INT_MAX ->
  0 <= color_cube / (count + 2) /\
  color_cube / (count + 2) * (count + 2) <= color_cube.
Proof.
  intros Hc. split.
  - apply Z.div_pos; [unfold color_cube|]; lia.
  - rewrite Z.mul_comm. apply Z.mul_div_le. lia.
Qed.

Lemma divisor_nonzero count :
  0 <= count <= INT_MAX -> (int_add count 2 =? 0) = false.
Proof.
  intros Hc. apply Z.eqb_neq. unfold int_add, wrap_int, INT_MAX in *.
  Z.div_mod_to_equations. lia.
Qed.

(** ** Color allocator *)

(* What the loop appends: the colors of [current_color + k * interval]. *)
Lemma sample_loop_spec n : forall iv cur res,
  0 <= iv -> 0 <= cur -> cur + iv * Z.of_nat n <= INT_MAX ->
  sample_loop n iv cur res =
  res ++ map (fun k => color_of_int (cur + iv * Z.of_nat k)) (seq 0 n).
Proof.
  induction n as [|n IH]; intros iv cur res Hiv Hcur Hmax.
  - simpl. now rewrite app_nil_r.
  - cbn [sample_loop]. unfold int_add.
    rewrite wrap_int_small by (unfold INT_MAX in *; nia).
    rewrite IH by nia.
    rewrite <- app_assoc. f_equal.
    cbn [seq map app]. rewrite Z.mul_0_r, Z.add_0_r. f_equal.
    rewrite <- seq_shift, map_map.
    apply map_ext. intros k. f_equal. lia.
Qed.

Lemma sampled_colors_spec count :
  0 <= count <= INT_MAX ->
  sampled_colors count =
  Some (map (fun k => color_of_int
                        (color_cube / (count + 2) * (Z.of_nat k + 1)))
            (seq 0 (Z.to_nat count))).
Proof.
  intros Hc. unfold sampled_colors.
  rewrite divisor_nonzero by assumption.
  rewrite interval_length_floor by assumption.
  destruct (interval_length_bounds count Hc) as [H0 Hle].
  rewrite sample_loop_spec.
  - cbn [app]. f_equal. apply map_ext. intros k. f_equal. lia.
  - assumption.
  - assumption.
  - rewrite Z2Nat.id by lia. unfold color_cube, INT_MAX in *. nia.
Qed.

(* The three bytes of a color value, as the spec words them. *)
Lemma color_of_int_decode v :
  0 <= v <= INT_MAX ->
  color_of_int v =
  Vec3 (inject_Z (v mod 256) / 255)%Q
       (inject_Z ((v / 256) mod 256) / 255)%Q
       (inject_Z ((v / 256 / 256) mod 256) / 255)%Q.
Proof.
  intros Hv. unfold color_of_int.
  assert (H1 : 0 <= v / 256 <= INT_MAX).
  { split; [apply Z.div_pos; lia|].
    apply Z.le_trans with v; [apply Z.div_le_upper_bound|]; lia. }
  assert (H2 : 0 <= v / 256 / 256).
  { apply Z.div_pos; lia. }
  rewrite !int_div_nonneg by lia.
  rewrite !int_rem_nonneg by lia.
  reflexivity.
Qed.

Lemma byte_in_unit r : 0 <= r <= 255 -> in_unit (inject_Z r / 255).
Proof.
  intros Hr. unfold in_unit, Qle, Qdiv, Qmult, Qinv, inject_Z. simpl. lia.
Qed.

Lemma byte_ratio_inj a b : (inject_Z a / 255 == inject_Z b / 255)%Q -> a = b.
Proof.
  unfold Qeq, Qdiv, Qmult, Qinv, inject_Z. simpl. lia.
Qed.

Lemma color_of_int_in_unit v :
  0 <= v <= INT_MAX -> vec3_in_unit (color_of_int v).
Proof.
  intros Hv. rewrite color_of_int_decode by assumption.
  unfold vec3_in_unit; cbn [v3x v3y v3z].
  repeat split; apply byte_in_unit;
    match goal with |- _ <= ?x mod 256 <= _ =>
      pose proof (Z.mod_pos_bound x 256 ltac:(lia)); lia end.
Qed.

(* Below 256^3 the decoding loses nothing: equal colors, equal values. *)
Lemma color_of_int_inj v w :
  0 <= v < color_cube -> 0 <= w < color_cube ->
  vec3_eq (color_of_int v) (color_of_int w) -> v = w.
Proof.
  unfold color_cube. intros Hv Hw.
  rewrite !color_of_int_decode by (unfold INT_MAX; lia).
  unfold vec3_eq; cbn [v3x v3y v3z]. intros (Hr & Hg & Hb).
  apply byte_ratio_inj in Hr, Hg, Hb.
  rewrite !Z.div_div in Hb by lia. change (256 * 256) with 65536 in Hb.
  rewrite (Z.mod_small (v / 65536)) in Hb by
    (split; [apply Z.div_pos|apply Z.div_lt_upper_bound]; lia).
  rewrite (Z.mod_small (w / 65536)) in Hb by
    (split; [apply Z.div_pos|apply Z.div_lt_upper_bound]; lia).
  Z.div_mod_to_equations. lia.
Qed.

(** *** The shuffle only permutes *)

Lemma iter_swap_perm {A} i j (l : list A) : iter_swap i j l ≡ₚ l.
Proof.
  unfold iter_swap.
  destruct (l !! i) as [a|] eqn:Hi; [|reflexivity].
  destruct (l !! j) as [b|] eqn:Hj; [|reflexivity].
  now apply Permutation_insert_swap.
Qed.

Lemma shuffle_loop_perm {A} (rnd : rand_source) n : forall i call (l : list A),
  shuffle_loop n i call rnd l ≡ₚ l.
Proof.
  induction n as [|n IH]; intros i call l; cbn [shuffle_loop].
  - reflexivity.
  - rewrite IH. apply iter_swap_perm.
Qed.

Lemma random_shuffle_perm {A} (rnd : rand_source) (l : list A) :
  random_shuffle rnd l ≡ₚ l.
Proof. apply shuffle_loop_perm. Qed.

(* The values that the allocator decodes, in the order of the loop. *)
Lemma spaced_values_NoDup iv n :
  0 < iv -> NoDup (map (fun k => iv * (Z.of_nat k + 1)) (seq 0 n)).
Proof.
  intros Hiv. apply NoDup_fmap_2_strong; [|apply NoDup_seq].
  intros x y _ _ Heq. nia.
Qed.

Lemma permuted_colors_distinct (vals : list Z) (result : list vec3) :
  NoDup vals ->
  Forall (fun v => 0 <= v < color_cube) vals ->
  result ≡ₚ map color_of_int vals ->
  forall i j a b,
    result !! i = Some a -> result !! j = Some b -> vec3_eq a b -> i = j.
Proof.
  intros Hnd Hrange Hperm i j a b Hi Hj Heq.
  apply Permutation_map_inv in Hperm as (vals' & -> & Hp).
  rewrite Hp in Hnd, Hrange.
  change (map color_of_int vals') with (color_of_int <$> vals') in Hi, Hj.
  rewrite list_lookup_fmap in Hi, Hj.
  destruct (vals' !! i) as [v|] eqn:Hvi; [|discriminate].
  destruct (vals' !! j) as [w|] eqn:Hvj; [|discriminate].
  cbn in Hi, Hj. injection Hi as <-. injection Hj as <-.
  rewrite Forall_lookup in Hrange.
  assert (v = w) as ->
    by (apply color_of_int_inj; eauto using Hrange).
  eapply NoDup_lookup; eauto.
Qed.

Lemma spaced_values_range count k :
  0 <= count <= INT_MAX -> (k < Z.to_nat count)%nat ->
  0 <= color_cube / (count + 2) * (Z.of_nat k + 1) <= color_cube.
Proof.
  intros Hc Hk. destruct (interval_length_bounds count Hc). nia.
Qed.

(** C2. For every count from 0 up to the largest [int], the color allocator
    returns exactly [count] colors (a permutation of the vector [raw] built
    by the loop), every component lies in [0, 1], entry [i] of [raw] is the
    decoding of [floor(256^3 / (count + 2)) * (i + 1)] into red = value mod
    256, green = (value / 256) mod 256, blue = (value / 256 / 256) mod 256,
    each divided by 255; the returned colors are pairwise distinct for every
    count up to 16777214 (so for every count up to 10000), and count 0
    gives the empty sequence. *)
Theorem color_allocator_contract (rnd : rand_source) (count : Z) :
  0 <= count <= INT_MAX ->
  exists raw result,
    sampled_colors count = Some raw /\
    get_uniform_sampled_colors rnd count = Some result /\
    result ≡ₚ raw /\
    length result = Z.to_nat count /\
    Forall vec3_in_unit result /\
    (forall i, 0 <= i < count ->
       let value := color_cube / (count + 2) * (i + 1) in
       raw !! Z.to_nat i =
       Some (Vec3 (inject_Z (value mod 256) / 255)%Q
                  (inject_Z ((value / 256) mod 256) / 255)%Q
                  (inject_Z ((value / 256 / 256) mod 256) / 255)%Q)) /\
    (count <= 16777214 ->
       forall i j a b,
         result !! i = Some a -> result !! j = Some b ->
         vec3_eq a b -> i = j) /\
    (count = 0 -> result = []).
Proof.
  intros Hc.
  pose proof (sampled_colors_spec count Hc) as Hraw.
  set (iv := color_cube / (count + 2)) in *.
  set (raw := map (fun k => color_of_int (iv * (Z.of_nat k + 1)))
                  (seq 0 (Z.to_nat count))) in *.
  exists raw, (random_shuffle rnd raw).
  assert (Hperm : random_shuffle rnd raw ≡ₚ raw) by apply random_shuffle_perm.
  split; [exact Hraw|].
  split; [unfold get_uniform_sampled_colors; now rewrite Hraw|].
  split; [exact Hperm|].
  split.
  { rewrite Hperm. unfold raw. now rewrite length_map, length_seq. }
  split.
  { rewrite Hperm. unfold raw. apply Forall_forall. intros c Hin.
    apply list_elem_of_In, in_map_iff in Hin as (k & <- & Hk).
    apply in_seq in Hk. apply color_of_int_in_unit.
    pose proof (spaced_values_range count k Hc ltac:(lia)) as Hr.
    fold iv in Hr. unfold color_cube, INT_MAX in *. lia. }
  split.
  { intros i Hi value. unfold raw.
    change (map ?f ?l) with (f <$> l).
    rewrite list_lookup_fmap, lookup_seq_lt by lia. cbn.
    rewrite Z2Nat.id by lia. fold value. f_equal.
    apply color_of_int_decode.
    pose proof (spaced_values_range count (Z.to_nat i) Hc ltac:(lia)) as Hr.
    rewrite Z2Nat.id in Hr by lia. fold iv in Hr. fold value in Hr.
    unfold color_cube, INT_MAX in *. lia. }
  split.
  { intros Hsmall.
    assert (Hiv : 0 < iv).
    { unfold iv. apply Z.div_str_pos. unfold color_cube. lia. }
    apply (permuted_colors_distinct
             (map (fun k => iv * (Z.of_nat k + 1)) (seq 0 (Z.to_nat count)))).
    - now apply spaced_values_NoDup.
    - apply Forall_forall. intros v Hin.
      apply list_elem_of_In, in_map_iff in Hin as (k & <- & Hk).
      apply in_seq in Hk.
      destruct (interval_length_bounds count Hc) as [_ Hle].
      fold iv in Hle. nia.
    - rewrite Hperm. unfold raw. now rewrite map_map. }
  intros ->. reflexivity.
Qed.

Lemma color_allocator_contract_witness :
  0 <= 3 <= INT_MAX /\
  exists raw result,
    sampled_colors 3 = Some raw /\
    get_uniform_sampled_colors sample_rand 3 = Some result /\
    result ≡ₚ raw /\
    length result = Z.to_nat 3 /\
    Forall vec3_in_unit result /\
    (forall i, 0 <= i < 3 ->
       let value := color_cube / (3 + 2) * (i + 1) in
       raw !! Z.to_nat i =
       Some (Vec3 (inject_Z (value mod 256) / 255)%Q
                  (inject_Z ((value / 256) mod 256) / 255)%Q
                  (inject_Z ((value / 256 / 256) mod 256) / 255)%Q)) /\
    (3 <= 16777214 ->
       forall i j a b,
         result !! i = Some a -> result !! j = Some b ->
         vec3_eq a b -> i = j) /\
    (3 = 0 -> result = []).
Proof.
  assert (H : 0 <= 3 <= INT_MAX) by (unfold INT_MAX; lia).
  split; [exact H|].
  apply (color_allocator_contract sample_rand 3 H).
Defined.

Example sampled_colors_2 :
  sampled_colors 2 =
  Some [Vec3 (inject_Z 0 / 255) (inject_Z 0 / 255) (inject_Z 64 / 255);
        Vec3 (inject_Z 0 / 255) (inject_Z 0 / 255) (inject_Z 128 / 255)]%Q.
Proof. reflexivity. Qed.

Example get_uniform_sampled_colors_0 rnd :
  get_uniform_sampled_colors rnd 0 = Some [].
Proof. reflexivity. Qed.

(** C10. For every count, two calls of the color allocator with the same
    count, whatever values the random source hands out in each, return the
    same multiset of colors: both results are permutations of the colors
    decoded from [interval * (i + 1)], [i] in [0, count), with [interval =
    floor(256^3 / (count + 2))]. *)
Theorem colors_independent_of_random_source
    (rnd1 rnd2 : rand_source) (count : Z) :
  0 <= count <= INT_MAX ->
  exists result1 result2,
    get_uniform_sampled_colors rnd1 count = Some result1 /\
    get_uniform_sampled_colors rnd2 count = Some result2 /\
    result1 ≡ₚ result2 /\
    result1 ≡ₚ
      map (fun i => color_of_int
                      (color_cube / (count + 2) * (Z.of_nat i + 1)))
          (seq 0 (Z.to_nat count)).
Proof.
  intros Hc. unfold get_uniform_sampled_colors.
  rewrite (sampled_colors_spec count Hc).
  eexists _, _. split; [reflexivity|]. split; [reflexivity|].
  split.
  - now rewrite !random_shuffle_perm.
  - apply random_shuffle_perm.
Qed.

Lemma colors_independent_of_random_source_witness :
  0 <= 4 <= INT_MAX /\
  exists result1 result2,
    get_uniform_sampled_colors (fun k => k) 4 = Some result1 /\
    get_uniform_sampled_colors sample_rand 4 = Some result2 /\
    result1 ≡ₚ result2 /\
    result1 ≡ₚ
      map (fun i => color_of_int (color_cube / (4 + 2) * (Z.of_nat i + 1)))
          (seq 0 (Z.to_nat 4)).
Proof.
  assert (H : 0 <= 4 <= INT_MAX) by (unfold INT_MAX; lia).
  split; [exact H|].
  apply (colors_independent_of_random_source (fun k => k) sample_rand 4 H).
Defined.

(* The two sources of the witness really give different orders. *)
Example shuffle_orders_differ :
  random_shuffle (fun k => k) [1; 2; 3; 4] = [2; 3; 4; 1] /\
  random_shuffle sample_rand [1; 2; 3; 4] = [1; 4; 2; 3].
Proof. split; reflexivity. Qed.

(** ** Category resolver *)

Lemma find_char_hash_name C suffix :
  find_char "#"%char C = None ->
  find_char "#"%char (hash_name C suffix) = Some (String.length C).
Proof.
  induction C as [|a C IH]; intros Hno; cbn in *.
  - reflexivity.
  - destruct (Ascii.eqb a "#"%char); [discriminate|].
    destruct (find_char "#"%char C); [discriminate|].
    unfold hash_name in IH. now rewrite IH.
Qed.

Lemma substr_to_hash_name C suffix :
  substr_to (String.length C) (hash_name C suffix) = C.
Proof.
  unfold substr_to, hash_name.
  induction C as [|a C IH]; cbn; [reflexivity|].
  now rewrite IH.
Qed.

(* Every name with a [#] splits at its first [#], in one way only. *)
Lemma find_char_split nm k :
  find_char "#"%char nm = Some k ->
  exists suffix,
    nm = hash_name (substr_to k nm) suffix /\
    find_char "#"%char (substr_to k nm) = None.
Proof.
  revert k. induction nm as [|a nm IH]; intros k; cbn; [discriminate|].
  destruct (Ascii.eqb_spec a "#"%char) as [->|Hne].
  - intros [= <-]. exists nm. split; reflexivity.
  - destruct (find_char "#"%char nm) as [k'|]; [|discriminate].
    intros [= <-]. destruct (IH k' eq_refl) as (suffix & Heq & Hno).
    exists suffix. unfold substr_to, hash_name in *. cbn. split.
    + f_equal. exact Heq.
    + apply Ascii.eqb_neq in Hne. now rewrite Hne, Hno.
Qed.

Lemma hash_name_not_Ground C suffix :
  String.eqb (hash_name C suffix) "Ground" = false.
Proof.
  apply String.eqb_neq. intros Heq.
  assert (H : find_char "#"%char (hash_name C suffix) = None)
    by (rewrite Heq; reflexivity).
  destruct (find_char "#"%char C) as [k|] eqn:HC.
  - clear Heq. revert k HC H. unfold hash_name.
    induction C as [|a C IH]; cbn; [discriminate|].
    intros k. destruct (Ascii.eqb a "#"%char); [discriminate|].
    destruct (find_char "#"%char C) as [k'|]; [|discriminate].
    intros _. destruct (find_char _ (String.append C _)) eqn:E;
      [discriminate|]. intros _. now apply (IH k').
  - rewrite find_char_hash_name in H by assumption. discriminate.
Qed.

(** C5. For every name [C#suffix] ([C] being what stands before the first
    [#]) that does not start with [Model#], the category resolver looks up
    the class [C] in the semantic color table, with [WallInside] and
    [WallOutside] replaced by [Wall], and prints nothing; such a name is
    never [Ground].  So [WallInside#3], [WallOutside#7] and [Wall#1] all get
    the color of [Wall]. *)
Theorem resolver_class_before_hash (s : SUNCGScene) (C suffix : string) :
  find_char "#"%char C = None ->
  starts_with "Model#" (hash_name C suffix) = false ->
  hash_name C suffix <> "Ground"%string /\
  (exists klass,
     get_color_by_shape_name s (hash_name C suffix) = (get_color s klass, [])
     /\ (C = "WallInside"%string \/ C = "WallOutside"%string ->
         klass = "Wall"%string)
     /\ (C <> "WallInside"%string -> C <> "WallOutside"%string ->
         klass = C)) /\
  get_color_by_shape_name s "WallInside#3" = (get_color s "Wall"%string, []) /\
  get_color_by_shape_name s "WallOutside#7" = (get_color s "Wall"%string, []) /\
  get_color_by_shape_name s "Wall#1" = (get_color s "Wall"%string, []).
Proof.
  intros Hno Hmodel.
  split; [apply String.eqb_neq, hash_name_not_Ground|].
  split; [|repeat split; reflexivity].
  exists (wall_alias C). split.
  - unfold get_color_by_shape_name.
    rewrite Hmodel, hash_name_not_Ground, find_char_hash_name by assumption.
    now rewrite substr_to_hash_name.
  - unfold wall_alias. split.
    + intros [-> | ->]; reflexivity.
    + intros H1 H2. apply String.eqb_neq in H1, H2. now rewrite H1, H2.
Qed.

(* The three names of the sample scene, one per rule of the resolver. *)
Example resolver_samples :
  get_color_by_shape_name sample_scene "Model#5"
  = (get_color sample_scene "Chair"%string, []) /\
  get_color_by_shape_name sample_scene "Ground"
  = (get_color sample_scene "Ground"%string, []) /\
  get_color_by_shape_name sample_scene "WallInside#1"
  = (get_color sample_scene "Wall"%string, []).
Proof. repeat split; reflexivity. Qed.

Lemma resolver_class_before_hash_witness :
  (find_char "#"%char "Door" = None /\
   starts_with "Model#" (hash_name "Door" "12") = false) /\
  hash_name "Door" "12" <> "Ground"%string /\
  (exists klass,
     get_color_by_shape_name sample_scene (hash_name "Door" "12")
     = (get_color sample_scene klass, [])
     /\ ("Door"%string = "WallInside"%string \/
         "Door"%string = "WallOutside"%string -> klass = "Wall"%string)
     /\ ("Door"%string <> "WallInside"%string ->
         "Door"%string <> "WallOutside"%string -> klass = "Door"%string)) /\
  get_color_by_shape_name sample_scene "WallInside#3"
  = (get_color sample_scene "Wall"%string, []) /\
  get_color_by_shape_name sample_scene "WallOutside#7"
  = (get_color sample_scene "Wall"%string, []) /\
  get_color_by_shape_name sample_scene "Wall#1"
  = (get_color sample_scene "Wall"%string, []).
Proof.
  split; [split; reflexivity|].
  apply (resolver_class_before_hash sample_scene "Door" "12"); reflexivity.
Defined.

(** ** Scene builder *)

Lemma vec_index_nat {A} (l : list A) (k : nat) :
  vec_index l (Z.of_nat k) = l !! k.
Proof.
  unfold vec_index. destruct (Z.ltb_spec (Z.of_nat k) 0); [lia|].
  now rewrite Nat2Z.id.
Qed.

Lemma int_size_small {A} (l : list A) :
  Z.of_nat (length l) <= INT_MAX -> int_size l = Z.of_nat (length l).
Proof. intros H. apply wrap_int_small. lia. Qed.

Lemma vec_index_is_Some {A} (l : list A) (i : Z) :
  is_Some (vec_index l i) <-> 0 <= i < Z.of_nat (length l).
Proof.
  unfold vec_index. destruct (Z.ltb_spec i 0).
  - split; [intros [x Hx]; discriminate|lia].
  - rewrite lookup_lt_is_Some. lia.
Qed.

Lemma vec_index_Some {A} (l : list A) (i : Z) (x : A) :
  vec_index l i = Some x <-> 0 <= i /\ l !! Z.to_nat i = Some x.
Proof.
  unfold vec_index. destruct (Z.ltb_spec i 0).
  - split; [discriminate|lia].
  - split; [intros H'; split; [lia|exact H']|intros [_ H']; exact H'].
Qed.

Lemma same_tables_refl s : same_tables s s.
Proof. repeat split. Qed.

Lemma same_tables_trans s1 s2 s3 :
  same_tables s1 s2 -> same_tables s2 s3 -> same_tables s1 s3.
Proof.
  unfold same_tables. intros (?&?&?&?&?&?) (?&?&?&?&?&?).
  repeat split; congruence.
Qed.

Lemma resolver_same_tables s s' nm :
  same_tables s s' ->
  get_color_by_shape_name s' nm = get_color_by_shape_name s nm.
Proof.
  intros (_ & Hn & Hg & _ & Hb & _).
  unfold get_color_by_shape_name. now rewrite Hn, Hg, Hb.
Qed.

Lemma alter_back {A} (f : A -> A) (l : list A) (x : A) :
  alter f (length (l ++ [x]) - 1)%nat (l ++ [x]) = l ++ [f x].
Proof.
  rewrite length_app. cbn [length].
  rewrite alter_app_r_alt by lia.
  replace (length l + 1 - 1 - length l)%nat with 0%nat by lia.
  reflexivity.
Qed.

(* The loop over the vertices of a face: they all land in the last mesh and
   the box is folded over their positions. *)
Lemma foldl_push_vertex vs : forall s l me,
  mesh_ s = l ++ [me] ->
  same_tables s (foldl push_vertex s vs) /\
  mesh_ (foldl push_vertex s vs) = l ++ [ {| vertices := vertices me ++ vs |} ]
  /\ materials_ (foldl push_vertex s vs) = materials_ s
  /\ boxmin_ (foldl push_vertex s vs) = foldl vec3_min (boxmin_ s) (pos <$> vs)
  /\ boxmax_ (foldl push_vertex s vs) = foldl vec3_max (boxmax_ s) (pos <$> vs).
Proof.
  induction vs as [|v vs IH]; intros s l me Hm.
  - cbn. rewrite app_nil_r. destruct me. repeat split; assumption.
  - cbn [foldl fmap list_fmap].
    destruct (IH (push_vertex s v) l (add_vertex v me))
      as (Ht & Hme & Hma & Hlo & Hhi).
    { cbn. rewrite Hm. apply alter_back. }
    split; [eapply same_tables_trans; [|exact Ht]; repeat split|].
    split; [rewrite Hme; cbn; now rewrite <- app_assoc|].
    repeat split; assumption.
Qed.

Lemma foldl_push_face tmesh fs : forall s l me,
  mesh_ s = l ++ [me] ->
  let vs := concat (map (fun f => convertFace (obj_ s) tmesh (Z.of_nat f)) fs) in
  let s' := foldl (push_face tmesh) s fs in
  same_tables s s' /\
  mesh_ s' = l ++ [ {| vertices := vertices me ++ vs |} ] /\
  materials_ s' = materials_ s /\
  boxmin_ s' = foldl vec3_min (boxmin_ s) (pos <$> vs) /\
  boxmax_ s' = foldl vec3_max (boxmax_ s) (pos <$> vs).
Proof.
  induction fs as [|f fs IH]; intros s l me Hm.
  - cbn. rewrite app_nil_r. destruct me. repeat split; assumption.
  - cbn [foldl map concat]. unfold push_face at 2 4 6 8 10.
    destruct (foldl_push_vertex (convertFace (obj_ s) tmesh (Z.of_nat f))
                s l me Hm) as (Ht & Hme & Hma & Hlo & Hhi).
    set (s1 := foldl push_vertex s _) in *.
    destruct (IH s1 l _ Hme) as (Ht' & Hme' & Hma' & Hlo' & Hhi').
    assert (Ho : obj_ s1 = obj_ s) by apply Ht.
    rewrite Ho in *.
    split; [eapply same_tables_trans; eassumption|].
    split; [rewrite Hme'; cbn [vertices]; now rewrite <- app_assoc|].
    split; [congruence|].
    rewrite fmap_app, !foldl_app, <- Hlo, <- Hhi. split; assumption.
Qed.

Lemma well_formed_same_tables s s' palette shp :
  same_tables s s' ->
  well_formed_shape s palette shp -> well_formed_shape s' palette shp.
Proof.
  intros (Ho & _) (Hi & Hsz & Hpos & Hfirst).
  unfold well_formed_shape, first_material_in_range in *. rewrite Ho.
  split; [exact Hi|]. split; [exact Hsz|]. split; [exact Hpos|exact Hfirst].
Qed.

(* One iteration of the loop over the shapes, when it completes. *)
Lemma parse_shape_ok palette s printed shp s' printed' :
  parse_shape palette (s, printed) shp = Ok (s', printed') ->
  well_formed_shape s palette shp /\
  same_tables s s' /\
  mesh_ s' =
    mesh_ s ++ [ {| vertices := face_vertices (obj_ s) (mesh shp) |} ] /\
  (exists md, materials_ s' = materials_ s ++ [md] /\
              descriptor_of s palette shp md) /\
  boxmin_ s' =
    foldl vec3_min (boxmin_ s) (pos <$> face_vertices (obj_ s) (mesh shp)) /\
  boxmax_ s' =
    foldl vec3_max (boxmax_ s) (pos <$> face_vertices (obj_ s) (mesh shp)) /\
  printed' = printed ++ snd (get_color_by_shape_name s (name shp)).
Proof.
  unfold parse_shape, well_formed_shape.
  destruct (get_color_by_shape_name s (name shp)) as [label msgs] eqn:Hlabel.
  destruct (vec_index palette (original_index shp)) as [ic|] eqn:Hic;
    [|discriminate].
  destruct (int_size (material_ids (mesh shp)) =?
            int_size (num_face_vertices (mesh shp))) eqn:Hsz;
    [|discriminate].
  destruct (0 <? int_size (num_face_vertices (mesh shp))) eqn:Hpos;
    [|discriminate].
  destruct (vec_index (material_ids (mesh shp)) 0) as [mid0|] eqn:Hmid;
    [|discriminate].
  destruct (vec_index (materials (obj_ s)) mid0) as [mat0|] eqn:Hmat;
    [|discriminate].
  cbn [negb]. intros [= <- <-].
  apply Z.eqb_eq in Hsz. apply Z.ltb_lt in Hpos.
  split.
  { split; [eexists; reflexivity|]. split; [assumption|].
    split; [assumption|]. exists mid0. split; [exact Hmid|].
    apply vec_index_is_Some. rewrite Hmat. eexists; reflexivity. }
  match goal with |- context [foldl (push_face ?t) ?s1 ?fs] =>
    destruct (foldl_push_face t fs s1 (mesh_ s) {| vertices := [] |} eq_refl)
      as (Ht & Hme & Hma & Hlo & Hhi)
  end.
  cbn [obj_ with_build vertices app boxmin_ boxmax_ materials_] in *.
  split; [eapply same_tables_trans; [|exact Ht]; repeat split|].
  split; [exact Hme|].
  split.
  { eexists. split; [exact Hma|].
    unfold descriptor_of. cbn. rewrite Hlabel. repeat split; assumption. }
  repeat split; assumption.
Qed.

(* A well-formed shape is processed to the end. *)
Lemma parse_shape_total palette s printed shp :
  well_formed_shape s palette shp ->
  exists s' printed', parse_shape palette (s, printed) shp = Ok (s', printed').
Proof.
  intros ([ic Hic] & Hsz & Hpos & first & Hfirst & Hrange).
  unfold parse_shape.
  destruct (get_color_by_shape_name s (name shp)) as [label msgs].
  rewrite Hic.
  apply Z.eqb_eq in Hsz. apply Z.ltb_lt in Hpos as Hpos'.
  rewrite Hsz, Hpos'. cbn [negb].
  change (vec_index (material_ids (mesh shp)) 0)
    with (material_ids (mesh shp) !! 0%nat).
  rewrite Hfirst.
  apply vec_index_is_Some in Hrange as [mat ->].
  eexists _, _. reflexivity.
Qed.

(* The whole loop over the shapes, when it completes. *)
Lemma parse_shapes_ok palette shps : forall s printed s' printed',
  parse_shapes palette shps (s, printed) = Ok (s', printed') ->
  Forall (well_formed_shape s palette) shps /\
  same_tables s s' /\
  mesh_ s' =
    mesh_ s ++
    map (fun shp => {| vertices := face_vertices (obj_ s) (mesh shp) |}) shps /\
  (exists mds, materials_ s' = materials_ s ++ mds /\
               Forall2 (descriptor_of s palette) shps mds) /\
  boxmin_ s' =
    foldl vec3_min (boxmin_ s) (pos <$> scene_vertices (obj_ s) shps) /\
  boxmax_ s' =
    foldl vec3_max (boxmax_ s) (pos <$> scene_vertices (obj_ s) shps) /\
  printed' =
    printed ++
    concat (map (fun shp => snd (get_color_by_shape_name s (name shp))) shps).
Proof.
  induction shps as [|shp shps IH]; intros s printed s' printed'.
  - cbn. intros [= <- <-]. rewrite !app_nil_r.
    split; [constructor|]. split; [apply same_tables_refl|].
    split; [reflexivity|]. split; [exists []; rewrite app_nil_r; split;
      [reflexivity|constructor]|].
    repeat split; reflexivity.
  - cbn [parse_shapes]. unfold bind.
    destruct (parse_shape palette (s, printed) shp) as [[s1 p1]| |] eqn:H1;
      [|discriminate|discriminate].
    intros Hrest.
    apply parse_shape_ok in H1
      as (Hwf & Ht & Hme & (md & Hma & Hmd) & Hlo & Hhi & Hp).
    apply IH in Hrest
      as (Hwfs & Ht' & Hme' & (mds & Hma' & Hmds) & Hlo' & Hhi' & Hp').
    assert (Ho : obj_ s1 = obj_ s) by apply Ht.
    rewrite Ho in *.
    split.
    { constructor; [assumption|]. eapply Forall_impl; [exact Hwfs|].
      intros shp'. apply well_formed_same_tables.
      split; [symmetry; exact Ho|]. repeat split; symmetry; apply Ht. }
    split; [eapply same_tables_trans; eassumption|].
    split; [rewrite Hme', Hme; cbn; now rewrite <- app_assoc|].
    split.
    { exists (md :: mds). split.
      - rewrite Hma', Hma. now rewrite <- app_assoc.
      - constructor; [assumption|].
        eapply Forall2_impl; [exact Hmds|].
        intros shp' md'. unfold descriptor_of.
        now rewrite (resolver_same_tables s s1). }
    unfold scene_vertices in *. cbn [map concat].
    rewrite fmap_app, !foldl_app, <- Hlo, <- Hhi.
    split; [assumption|]. split; [assumption|].
    rewrite Hp', Hp. cbn [map concat]. rewrite <- app_assoc. f_equal. f_equal.
    f_equal. apply map_ext. intros shp'.
    now rewrite (resolver_same_tables s s1).
Qed.

Lemma parse_shapes_total palette shps : forall s printed,
  Forall (well_formed_shape s palette) shps ->
  exists s' printed', parse_shapes palette shps (s, printed) = Ok (s', printed').
Proof.
  induction shps as [|shp shps IH]; intros s printed Hwf.
  - eexists _, _. reflexivity.
  - apply Forall_cons in Hwf as [Hshp Hrest]. cbn [parse_shapes].
    destruct (parse_shape_total palette s printed shp Hshp)
      as (s1 & p1 & Hstep).
    rewrite Hstep. cbn [bind]. apply IH.
    apply parse_shape_ok in Hstep as (_ & Ht & _).
    eapply Forall_impl; [exact Hrest|].
    intros shp'. now apply well_formed_same_tables.
Qed.

Lemma sample_loop_length n : forall iv cur res,
  length (sample_loop n iv cur res) = (length res + n)%nat.
Proof.
  induction n as [|n IH]; intros iv cur res; cbn [sample_loop].
  - lia.
  - rewrite IH, length_app. cbn. lia.
Qed.

(* The palette always has one entry per original shape. *)
Lemma palette_length rnd n palette :
  get_uniform_sampled_colors rnd n = Some palette ->
  length palette = Z.to_nat n.
Proof.
  unfold get_uniform_sampled_colors, sampled_colors.
  destruct (int_add n 2 =? 0); [discriminate|].
  intros [= <-]. rewrite random_shuffle_perm. apply sample_loop_length.
Qed.

(* The whole of [parse_scene], when it completes. *)
Lemma parse_scene_ok rnd s s' printed :
  parse_scene rnd s = Ok (s', printed) ->
  exists palette,
    get_uniform_sampled_colors rnd (original_num_shapes (obj_ s))
    = Some palette /\
    Forall (well_formed_shape s palette) (shapes (obj_ s)) /\
    obj_ s' = with_shapes (obj_ s) [] /\
    mesh_ s' =
      mesh_ s ++
      map (fun shp => {| vertices := face_vertices (obj_ s) (mesh shp) |})
          (shapes (obj_ s)) /\
    (exists mds, materials_ s' = materials_ s ++ mds /\
                 Forall2 (descriptor_of s palette) (shapes (obj_ s)) mds) /\
    boxmin_ s' =
      foldl vec3_min (FVec3 FLT_MAX FLT_MAX FLT_MAX)
            (pos <$> scene_vertices (obj_ s) (shapes (obj_ s))) /\
    boxmax_ s' =
      foldl vec3_max (FVec3 FLT_LOWEST FLT_LOWEST FLT_LOWEST)
            (pos <$> scene_vertices (obj_ s) (shapes (obj_ s))) /\
    printed =
      concat (map (fun shp => snd (get_color_by_shape_name s (name shp)))
                  (shapes (obj_ s))).
Proof.
  unfold parse_scene. cbn [obj_ with_build].
  destruct (get_uniform_sampled_colors rnd (original_num_shapes (obj_ s)))
    as [palette|]; [|discriminate].
  unfold bind.
  match goal with |- context [parse_shapes ?p ?l (?s0, [])] =>
    destruct (parse_shapes p l (s0, [])) as [[s1 p1]| |] eqn:Hloop;
      [|discriminate|discriminate];
    set (start := s0) in *
  end.
  intros [= <- <-].
  apply parse_shapes_ok in Hloop
    as (Hwf & Ht & Hme & (mds & Hma & Hmds) & Hlo & Hhi & Hp).
  assert (Hstart : same_tables s start) by (repeat split).
  exists palette. cbn [obj_ with_build mesh_ materials_ boxmin_ boxmax_] in *.
  split; [reflexivity|]. split; [exact Hwf|].
  split; [f_equal; apply Ht|].
  split; [assumption|].
  split.
  { exists mds. split; [assumption|].
    eapply Forall2_impl; [exact Hmds|].
    intros shp md. unfold descriptor_of.
    now rewrite (resolver_same_tables s start). }
  split; [assumption|]. split; [assumption|].
  rewrite Hp. reflexivity.
Qed.

(* The builder completes on every scene that meets its preconditions. *)
Lemma parse_scene_total rnd s palette :
  get_uniform_sampled_colors rnd (original_num_shapes (obj_ s)) = Some palette ->
  Forall (well_formed_shape s palette) (shapes (obj_ s)) ->
  exists s' printed, parse_scene rnd s = Ok (s', printed).
Proof.
  intros Hpal Hwf. unfold parse_scene. cbn [obj_ with_build].
  rewrite Hpal.
  match goal with |- context [parse_shapes ?p ?l (?s0, ?p0)] =>
    destruct (parse_shapes_total p l s0 p0 Hwf) as (s1 & p1 & ->)
  end.
  cbn [bind]. eexists _, _. reflexivity.
Qed.

Lemma Forall2_lookup_left {A B} (P : A -> B -> Prop) l k i x :
  Forall2 P l k -> l !! i = Some x -> exists y, k !! i = Some y /\ P x y.
Proof. intros H Hi. eapply Forall2_lookup_l; eassumption. Qed.

(** C3. When the scene build completes, the palette is the color
    allocator's result for the original (pre-filter) shape count, it has one
    entry per original shape, and the material descriptor made for the
    retained shape at position [i] carries as instance color the palette
    entry at that shape's original index [k] (which is not negative: entry
    [k] of the list, counted from 0), wherever the shape stands in the
    retained list. *)
Theorem instance_color_by_original_index rnd s s' printed :
  parse_scene rnd s = Ok (s', printed) ->
  exists palette,
    get_uniform_sampled_colors rnd (original_num_shapes (obj_ s))
    = Some palette /\
    length palette = Z.to_nat (original_num_shapes (obj_ s)) /\
    forall i shp,
      shapes (obj_ s) !! i = Some shp ->
      exists md,
        materials_ s' !! (length (materials_ s) + i)%nat = Some md /\
        0 <= original_index shp /\
        palette !! Z.to_nat (original_index shp) = Some (instance_color md).
Proof.
  intros Hok.
  apply parse_scene_ok in Hok
    as (palette & Hpal & _ & _ & _ & (mds & Hma & Hmds) & _).
  exists palette. split; [assumption|].
  split; [eapply palette_length; eassumption|].
  intros i shp Hi.
  destruct (Forall2_lookup_left _ _ _ _ _ Hmds Hi) as (md & Hmd & Hdesc).
  exists md. split.
  - rewrite Hma, lookup_app_r by lia.
    now replace (length (materials_ s) + i - length (materials_ s))%nat
      with i by lia.
  - apply vec_index_Some, Hdesc.
Qed.

Lemma instance_color_by_original_index_witness :
  parse_scene sample_rand sample_scene = Ok (sample_built, sample_printed) /\
  exists palette,
    get_uniform_sampled_colors sample_rand
      (original_num_shapes (obj_ sample_scene)) = Some palette /\
    length palette = Z.to_nat (original_num_shapes (obj_ sample_scene)) /\
    forall i shp,
      shapes (obj_ sample_scene) !! i = Some shp ->
      exists md,
        materials_ sample_built !! (length (materials_ sample_scene) + i)%nat
        = Some md /\
        0 <= original_index shp /\
        palette !! Z.to_nat (original_index shp) = Some (instance_color md).
Proof.
  split; [vm_compute; reflexivity|].
  apply (instance_color_by_original_index sample_rand sample_scene
           sample_built sample_printed).
  vm_compute. reflexivity.
Defined.

(* In the sample scene the shape with original index 3 stands at position 2
   and still gets palette entry 3. *)
Example sample_instance_colors :
  get_uniform_sampled_colors sample_rand 4 =
    Some [Vec3 (170 # 255) (170 # 255) (42 # 255);
          Vec3 (168 # 255) (170 # 255) (170 # 255);
          Vec3 (84 # 255) (85 # 255) (85 # 255);
          Vec3 (254 # 255) (255 # 255) (127 # 255)] /\
  instance_color <$> materials_ sample_built =
    [Vec3 (170 # 255) (170 # 255) (42 # 255);
     Vec3 (84 # 255) (85 # 255) (85 # 255);
     Vec3 (254 # 255) (255 # 255) (127 # 255)].
Proof. split; vm_compute; reflexivity. Qed.

Lemma activate_loop_no_assertion n : forall i s,
  activate_loop n i s <> AssertionFailure.
Proof.
  induction n as [|n IH]; intros i s; cbn [activate_loop]; [discriminate|].
  destruct (vec_index (materials_ s) i) as [material|]; [|discriminate].
  destruct (vec_index (mesh_ s) i); [|discriminate].
  destruct (vec_index (materials (obj_ s)) (m material)); [|discriminate].
  apply IH.
Qed.

(** C8. Every iteration of the builder that completes appends exactly one
    mesh and exactly one material descriptor.  Hence, when the build
    completes on a scene whose two tables had equal length (both are empty
    when the scene is constructed), the tables again have equal length, each
    retained shape at position [i] owns the mesh and the descriptor at the
    same index (the mesh holds the shape's vertices, the descriptor the
    material id of its first face), and the assertion of [activate] on the
    two lengths does not fail. *)
Theorem mesh_material_tables_aligned rnd s s' printed :
  parse_scene rnd s = Ok (s', printed) ->
  length (mesh_ s) = length (materials_ s) ->
  (forall palette s0 p0 shp s1 p1,
     parse_shape palette (s0, p0) shp = Ok (s1, p1) ->
     (exists me, mesh_ s1 = mesh_ s0 ++ [me]) /\
     (exists md, materials_ s1 = materials_ s0 ++ [md])) /\
  length (mesh_ s') = length (materials_ s') /\
  length (mesh_ s') = (length (mesh_ s) + length (shapes (obj_ s)))%nat /\
  (forall i shp,
     shapes (obj_ s) !! i = Some shp ->
     exists me md,
       mesh_ s' !! (length (mesh_ s) + i)%nat = Some me /\
       materials_ s' !! (length (mesh_ s) + i)%nat = Some md /\
       vertices me = face_vertices (obj_ s) (mesh shp) /\
       vec_index (material_ids (mesh shp)) 0 = Some (mid md)) /\
  activate s' <> AssertionFailure.
Proof.
  intros Hok Hlen.
  apply parse_scene_ok in Hok
    as (palette & Hpal & _ & _ & Hme & (mds & Hma & Hmds) & _).
  assert (Hmdlen : length mds = length (shapes (obj_ s)))
    by (symmetry; eapply Forall2_length; eassumption).
  assert (Heq : length (mesh_ s') = length (materials_ s')).
  { rewrite Hme, Hma, !length_app, length_map. lia. }
  split.
  { intros pal s0 p0 shp s1 p1 Hstep.
    apply parse_shape_ok in Hstep as (_ & _ & Hm1 & (md & Hd1 & _) & _).
    split; eexists; eassumption. }
  split; [exact Heq|].
  split; [rewrite Hme, length_app, length_map; lia|].
  split.
  { intros i shp Hi.
    destruct (Forall2_lookup_left _ _ _ _ _ Hmds Hi) as (md & Hmd & Hdesc).
    exists {| vertices := face_vertices (obj_ s) (mesh shp) |}, md.
    split.
    { rewrite Hme, lookup_app_r by lia.
      replace (length (mesh_ s) + i - length (mesh_ s))%nat with i by lia.
      change (map ?f ?l) with (f <$> l).
      now rewrite list_lookup_fmap, Hi. }
    split.
    { rewrite Hma, Hlen, lookup_app_r by lia.
      now replace (length (materials_ s) + i - length (materials_ s))%nat
        with i by lia. }
    split; [reflexivity|apply Hdesc]. }
  unfold activate, int_size. rewrite Heq, Z.eqb_refl. cbn [negb].
  apply activate_loop_no_assertion.
Qed.

Lemma mesh_material_tables_aligned_witness :
  (parse_scene sample_rand sample_scene = Ok (sample_built, sample_printed) /\
   length (mesh_ sample_scene) = length (materials_ sample_scene)) /\
  (forall palette s0 p0 shp s1 p1,
     parse_shape palette (s0, p0) shp = Ok (s1, p1) ->
     (exists me, mesh_ s1 = mesh_ s0 ++ [me]) /\
     (exists md, materials_ s1 = materials_ s0 ++ [md])) /\
  length (mesh_ sample_built) = length (materials_ sample_built) /\
  length (mesh_ sample_built) =
    (length (mesh_ sample_scene) + length (shapes (obj_ sample_scene)))%nat /\
  (forall i shp,
     shapes (obj_ sample_scene) !! i = Some shp ->
     exists me md,
       mesh_ sample_built !! (length (mesh_ sample_scene) + i)%nat
       = Some me /\
       materials_ sample_built !! (length (mesh_ sample_scene) + i)%nat
       = Some md /\
       vertices me = face_vertices (obj_ sample_scene) (mesh shp) /\
       vec_index (material_ids (mesh shp)) 0 = Some (mid md)) /\
  activate sample_built <> AssertionFailure.
Proof.
  split; [split; [vm_compute; reflexivity|reflexivity]|].
  apply (mesh_material_tables_aligned sample_rand sample_scene
           sample_built sample_printed).
  - vm_compute. reflexivity.
  - reflexivity.
Defined.

(** *** Assertions of the builder *)








(* The scene with a shape without faces aborts in the assertion, and so
   does the scene whose shape has two faces and one material id. *)
Example empty_shape_aborts :
  parse_scene sample_rand empty_shape_scene = AssertionFailure.
Proof. vm_compute. reflexivity. Qed.

Example mismatched_ids_abort :
  (length ∘ num_face_vertices ∘ mesh) <$> shapes (obj_ mismatched_ids_scene)
  = [2%nat] /\
  (material_ids ∘ mesh) <$> shapes (obj_ mismatched_ids_scene) = [[0]] /\
  parse_scene sample_rand mismatched_ids_scene = AssertionFailure.
Proof. repeat split; vm_compute; reflexivity. Qed.


(** C6. A name that does not start with [Model#], is not [Ground] and has no
    [#] gets the background color, and the resolver prints its one
    diagnostic.  The build goes on: a well-formed shape with such a name
    (one that meets the builder's preconditions on its indices and passes
    its assertions) is processed to the end like any other, its descriptor
    carries the background color as label color, and the diagnostic joins
    what was printed. *)
Theorem unparseable_name_falls_back (s : SUNCGScene) (nm : string) :
  starts_with "Model#" nm = false ->
  nm <> "Ground"%string ->
  find_char "#"%char nm = None ->
  get_color_by_shape_name s nm
  = (background_color_ s, [failed_color_message nm]) /\
  get_color_by_shape_name s "garbage"
  = (background_color_ s, [failed_color_message "garbage"]) /\
  forall palette printed shp,
    name shp = nm ->
    well_formed_shape s palette shp ->
    exists s' md,
      parse_shape palette (s, printed) shp
      = Ok (s', printed ++ [failed_color_message nm]) /\
      materials_ s' = materials_ s ++ [md] /\
      label_color md = background_color_ s.
Proof.
  intros Hmodel Hground Hhash.
  assert (Hres : get_color_by_shape_name s nm
                 = (background_color_ s, [failed_color_message nm])).
  { unfold get_color_by_shape_name.
    apply String.eqb_neq in Hground. now rewrite Hmodel, Hground, Hhash. }
  split; [exact Hres|]. split; [reflexivity|].
  intros palette printed shp Hname Hwf.
  destruct (parse_shape_total palette s printed shp Hwf)
    as (s' & printed' & Hok).
  apply parse_shape_ok in Hok as Hfacts.
  destruct Hfacts as (_ & _ & _ & (md & Hma & Hdesc) & _ & _ & Hp).
  rewrite Hname, Hres in Hp. cbn [snd] in Hp. subst printed'.
  exists s', md. split; [assumption|]. split; [assumption|].
  destruct Hdesc as (_ & Hlabel & _). rewrite Hlabel, Hname, Hres.
  reflexivity.
Qed.

Lemma unparseable_name_falls_back_witness :
  (starts_with "Model#" "garbage" = false /\
   "garbage"%string <> "Ground"%string /\
   find_char "#"%char "garbage" = None) /\
  get_color_by_shape_name garbage_scene "garbage"
  = (background_color_ garbage_scene, [failed_color_message "garbage"]) /\
  get_color_by_shape_name garbage_scene "garbage"
  = (background_color_ garbage_scene, [failed_color_message "garbage"]) /\
  forall palette printed shp,
    name shp = "garbage"%string ->
    well_formed_shape garbage_scene palette shp ->
    exists s' md,
      parse_shape palette (garbage_scene, printed) shp
      = Ok (s', printed ++ [failed_color_message "garbage"]) /\
      materials_ s' = materials_ garbage_scene ++ [md] /\
      label_color md = background_color_ garbage_scene.
Proof.
  split; [split; [reflexivity|split; [discriminate|reflexivity]]|].
  apply (unparseable_name_falls_back garbage_scene "garbage");
    [reflexivity|discriminate|reflexivity].
Defined.

(* The whole build of the scene with the unparseable name. *)
Example garbage_scene_is_built :
  parse_scene sample_rand garbage_scene = Ok (built sample_rand garbage_scene)
  /\ label_color <$> materials_ (built sample_rand garbage_scene).1
     = [Vec3 0 0 0]
  /\ (built sample_rand garbage_scene).2 = [failed_color_message "garbage"].
Proof. repeat split; vm_compute; reflexivity. Qed.

(** ** Order of floats

    The IEEE comparison orders the floats that are numbers; it compares
    signs, then exponents, then mantissas. *)

Ltac float_unfold :=
  unfold fle, is_number, glm_min, glm_max, Binary32.leb, Binary32.ltb,
    Binary32.eqb, Binary32.is_nan, SFleb, SFltb, SFeqb, SFcompare in *.

Ltac compare_cases :=
  repeat match goal with
  | H : context [Z.compare ?a ?b] |- _ =>
      destruct (Z.compare_spec a b); try discriminate H
  | |- context [Z.compare ?a ?b] =>
      destruct (Z.compare_spec a b); try reflexivity
  | H : context [Pos.compare_cont Eq ?a ?b] |- _ =>
      change (Pos.compare_cont Eq a b) with (Pos.compare a b) in H;
      destruct (Pos.compare_spec a b); try discriminate H
  | |- context [Pos.compare_cont Eq ?a ?b] =>
      change (Pos.compare_cont Eq a b) with (Pos.compare a b);
      destruct (Pos.compare_spec a b); try reflexivity
  end.

Ltac float_order :=
  float_unfold;
  repeat match goal with
  | x : float |- _ => destruct x as [[]|[]| |[] ? ?]
  end;
  try discriminate; try reflexivity; try tauto;
  compare_cases; cbn in *; try discriminate; try reflexivity; try lia.

Lemma fle_refl (x : float) : is_number x -> fle x x.
Proof. intros H. float_order. Qed.

Lemma fle_trans (x y z : float) : fle x y -> fle y z -> fle x z.
Proof. intros H1 H2. float_order. Qed.

Lemma ltb_fle (x y : float) : Binary32.ltb x y = true -> fle x y.
Proof. intros H. float_order. Qed.

Lemma not_ltb_fle (x y : float) :
  is_number x -> is_number y -> Binary32.ltb y x = false -> fle x y.
Proof. intros Hx Hy H. float_order. Qed.

Lemma fle_antisym (x y : float) :
  fle x y -> fle y x -> Binary32.eqb x y = true.
Proof. intros H1 H2. float_order. Qed.

Lemma fle_is_number (x y : float) : fle x y -> is_number x /\ is_number y.
Proof. intros H. float_order; split; reflexivity. Qed.

Lemma ltb_is_number (x y : float) :
  Binary32.ltb x y = true -> is_number x /\ is_number y.
Proof. intros H. float_order; split; reflexivity. Qed.

Lemma eqb_fle (x y : float) : Binary32.eqb x y = true -> fle x y /\ fle y x.
Proof. intros H. float_order; split; reflexivity. Qed.

(** ** Bounding box *)

Lemma glm_min_number x y : is_number x -> is_number (glm_min x y).
Proof.
  intros Hx. unfold glm_min. destruct (Binary32.ltb y x) eqn:H; [|exact Hx].
  apply ltb_is_number in H. apply H.
Qed.

Lemma glm_min_le_l x y : is_number x -> fle (glm_min x y) x.
Proof.
  intros Hx. unfold glm_min. destruct (Binary32.ltb y x) eqn:H.
  - now apply ltb_fle.
  - now apply fle_refl.
Qed.

Lemma glm_min_le_r x y : is_number x -> is_number y -> fle (glm_min x y) y.
Proof.
  intros Hx Hy. unfold glm_min. destruct (Binary32.ltb y x) eqn:H.
  - now apply fle_refl.
  - now apply not_ltb_fle.
Qed.

Lemma glm_min_cases x y :
  glm_min x y = x \/ (glm_min x y = y /\ is_number y).
Proof.
  unfold glm_min. destruct (Binary32.ltb y x) eqn:H; [|now left].
  right. split; [reflexivity|]. apply ltb_is_number in H. apply H.
Qed.

(* A NaN is skipped. *)
Lemma glm_min_nan x : glm_min x S754_nan = x.
Proof. reflexivity. Qed.

Lemma glm_max_number x y : is_number x -> is_number (glm_max x y).
Proof.
  intros Hx. unfold glm_max. destruct (Binary32.ltb x y) eqn:H; [|exact Hx].
  apply ltb_is_number in H. apply H.
Qed.

Lemma glm_max_ge_l x y : is_number x -> fle x (glm_max x y).
Proof.
  intros Hx. unfold glm_max. destruct (Binary32.ltb x y) eqn:H.
  - now apply ltb_fle.
  - now apply fle_refl.
Qed.

Lemma glm_max_ge_r x y : is_number x -> is_number y -> fle y (glm_max x y).
Proof.
  intros Hx Hy. unfold glm_max. destruct (Binary32.ltb x y) eqn:H.
  - now apply fle_refl.
  - now apply not_ltb_fle.
Qed.

Lemma glm_max_cases x y :
  glm_max x y = x \/ (glm_max x y = y /\ is_number y).
Proof.
  unfold glm_max. destruct (Binary32.ltb x y) eqn:H; [|now left].
  right. split; [reflexivity|]. apply ltb_is_number in H. apply H.
Qed.

Lemma glm_max_nan x : glm_max x S754_nan = x.
Proof. unfold glm_max. now destruct x as [[]|[]| |[] ? ?]. Qed.

Lemma foldl_min_number qs : forall b,
  is_number b -> is_number (foldl glm_min b qs).
Proof.
  induction qs as [|q qs IH]; intros b Hb; cbn [foldl]; [exact Hb|].
  apply IH. now apply glm_min_number.
Qed.

Lemma foldl_min_le_init qs : forall b,
  is_number b -> fle (foldl glm_min b qs) b.
Proof.
  induction qs as [|q qs IH]; intros b Hb; cbn [foldl];
    [now apply fle_refl|].
  apply fle_trans with (glm_min b q); [apply IH; now apply glm_min_number|].
  now apply glm_min_le_l.
Qed.

Lemma foldl_min_le_elem qs : forall b q,
  is_number b -> q ∈ qs -> is_number q -> fle (foldl glm_min b qs) q.
Proof.
  induction qs as [|q' qs IH]; intros b q Hb Hin Hq; cbn [foldl].
  - inversion Hin.
  - apply elem_of_cons in Hin as [-> | Hin].
    + apply fle_trans with (glm_min b q');
        [apply foldl_min_le_init; now apply glm_min_number|].
      now apply glm_min_le_r.
    + apply IH; [now apply glm_min_number|assumption..].
Qed.

Lemma foldl_min_cases qs : forall b,
  foldl glm_min b qs = b \/
  exists q, q ∈ qs /\ is_number q /\ foldl glm_min b qs = q.
Proof.
  induction qs as [|q qs IH]; intros b; cbn [foldl]; [now left|].
  destruct (IH (glm_min b q)) as [Heq | (q' & Hin & Hq' & Heq)].
  - rewrite Heq. destruct (glm_min_cases b q) as [-> | [-> Hq]]; [now left|].
    right. exists q. split; [apply list_elem_of_here|]. now split.
  - right. exists q'. split; [now apply list_elem_of_further|]. now split.
Qed.

Lemma foldl_min_all_nan qs : forall b,
  Forall (fun q => q = S754_nan) qs -> foldl glm_min b qs = b.
Proof.
  induction qs as [|q qs IH]; intros b Hall; cbn [foldl]; [reflexivity|].
  apply Forall_cons in Hall as [-> Hall]. rewrite glm_min_nan. now apply IH.
Qed.

Lemma foldl_max_number qs : forall b,
  is_number b -> is_number (foldl glm_max b qs).
Proof.
  induction qs as [|q qs IH]; intros b Hb; cbn [foldl]; [exact Hb|].
  apply IH. now apply glm_max_number.
Qed.

Lemma foldl_max_ge_init qs : forall b,
  is_number b -> fle b (foldl glm_max b qs).
Proof.
  induction qs as [|q qs IH]; intros b Hb; cbn [foldl];
    [now apply fle_refl|].
  apply fle_trans with (glm_max b q); [now apply glm_max_ge_l|].
  apply IH. now apply glm_max_number.
Qed.

Lemma foldl_max_ge_elem qs : forall b q,
  is_number b -> q ∈ qs -> is_number q -> fle q (foldl glm_max b qs).
Proof.
  induction qs as [|q' qs IH]; intros b q Hb Hin Hq; cbn [foldl].
  - inversion Hin.
  - apply elem_of_cons in Hin as [-> | Hin].
    + apply fle_trans with (glm_max b q'); [now apply glm_max_ge_r|].
      apply foldl_max_ge_init. now apply glm_max_number.
    + apply IH; [now apply glm_max_number|assumption..].
Qed.

Lemma foldl_max_cases qs : forall b,
  foldl glm_max b qs = b \/
  exists q, q ∈ qs /\ is_number q /\ foldl glm_max b qs = q.
Proof.
  induction qs as [|q qs IH]; intros b; cbn [foldl]; [now left|].
  destruct (IH (glm_max b q)) as [Heq | (q' & Hin & Hq' & Heq)].
  - rewrite Heq. destruct (glm_max_cases b q) as [-> | [-> Hq]]; [now left|].
    right. exists q. split; [apply list_elem_of_here|]. now split.
  - right. exists q'. split; [now apply list_elem_of_further|]. now split.
Qed.

Lemma foldl_max_all_nan qs : forall b,
  Forall (fun q => q = S754_nan) qs -> foldl glm_max b qs = b.
Proof.
  induction qs as [|q qs IH]; intros b Hall; cbn [foldl]; [reflexivity|].
  apply Forall_cons in Hall as [-> Hall]. rewrite glm_max_nan. now apply IH.
Qed.

(* The box is computed axis by axis. *)
Lemma coord_foldl_min a ps : forall b,
  coord a (foldl vec3_min b ps) = foldl glm_min (coord a b) (coord a <$> ps).
Proof.
  induction ps as [|p ps IH]; intros b; cbn [foldl fmap list_fmap];
    [reflexivity|].
  rewrite IH. now destruct a.
Qed.

Lemma coord_foldl_max a ps : forall b,
  coord a (foldl vec3_max b ps) = foldl glm_max (coord a b) (coord a <$> ps).
Proof.
  induction ps as [|p ps IH]; intros b; cbn [foldl fmap list_fmap];
    [reflexivity|].
  rewrite IH. now destruct a.
Qed.

Lemma coord_elem_of a (vs : list Vertex) v :
  v ∈ vs -> coord a (pos v) ∈ coord a <$> (pos <$> vs).
Proof. intros Hin. apply list_elem_of_fmap_2, list_elem_of_fmap_2, Hin. Qed.

Lemma box_contains a (vs : list Vertex) lo hi v :
  is_number (coord a lo) -> is_number (coord a hi) ->
  v ∈ vs -> is_number (coord a (pos v)) ->
  fle (coord a (foldl vec3_min lo (pos <$> vs))) (coord a (pos v)) /\
  fle (coord a (pos v)) (coord a (foldl vec3_max hi (pos <$> vs))).
Proof.
  intros Hlo Hhi Hin Hv. rewrite coord_foldl_min, coord_foldl_max.
  split.
  - apply foldl_min_le_elem; [assumption|now apply coord_elem_of|assumption].
  - apply foldl_max_ge_elem; [assumption|now apply coord_elem_of|assumption].
Qed.

(* On an axis on which no vertex has a number the box stays as it was. *)
Lemma box_skips_nan a (vs : list Vertex) lo hi :
  (forall v, v ∈ vs -> coord a (pos v) = S754_nan) ->
  coord a (foldl vec3_min lo (pos <$> vs)) = coord a lo /\
  coord a (foldl vec3_max hi (pos <$> vs)) = coord a hi.
Proof.
  intros Hnan. rewrite coord_foldl_min, coord_foldl_max.
  assert (Hall : Forall (fun q => q = S754_nan) (coord a <$> (pos <$> vs))).
  { rewrite Forall_forall. intros q Hq.
    apply list_elem_of_fmap in Hq as (p & -> & Hp).
    apply list_elem_of_fmap in Hp as (v & -> & Hv). now apply Hnan. }
  split; [now apply foldl_min_all_nan|now apply foldl_max_all_nan].
Qed.

(* With finite coordinates the corners are reached by vertices: the
   sentinels do not survive the first vertex. *)
Lemma box_min_attained a (vs : list Vertex) lo :
  vs <> [] ->
  (forall v, v ∈ vs -> fle (coord a (pos v)) (coord a lo)) ->
  attained_by a (foldl vec3_min lo (pos <$> vs)) vs.
Proof.
  intros Hne Hfin. unfold attained_by. rewrite coord_foldl_min.
  destruct (foldl_min_cases (coord a <$> (pos <$> vs)) (coord a lo))
    as [Heq | (q & Hin & Hq & Heq)].
  - destruct vs as [|v0 vs']; [congruence|].
    exists v0. split; [apply list_elem_of_here|].
    pose proof (Hfin v0 (list_elem_of_here _ _)) as Hv0.
    destruct (fle_is_number _ _ Hv0) as [Hn0 Hnlo].
    apply fle_antisym.
    + apply foldl_min_le_elem;
        [assumption|apply coord_elem_of, list_elem_of_here|assumption].
    + rewrite Heq. exact Hv0.
  - apply list_elem_of_fmap in Hin as (p & -> & Hin).
    apply list_elem_of_fmap in Hin as (v & -> & Hin).
    exists v. split; [assumption|]. rewrite Heq.
    apply fle_antisym; now apply fle_refl.
Qed.

Lemma box_max_attained a (vs : list Vertex) hi :
  vs <> [] ->
  (forall v, v ∈ vs -> fle (coord a hi) (coord a (pos v))) ->
  attained_by a (foldl vec3_max hi (pos <$> vs)) vs.
Proof.
  intros Hne Hfin. unfold attained_by. rewrite coord_foldl_max.
  destruct (foldl_max_cases (coord a <$> (pos <$> vs)) (coord a hi))
    as [Heq | (q & Hin & Hq & Heq)].
  - destruct vs as [|v0 vs']; [congruence|].
    exists v0. split; [apply list_elem_of_here|].
    pose proof (Hfin v0 (list_elem_of_here _ _)) as Hv0.
    destruct (fle_is_number _ _ Hv0) as [Hnhi Hn0].
    apply fle_antisym.
    + rewrite Heq. exact Hv0.
    + apply foldl_max_ge_elem;
        [assumption|apply coord_elem_of, list_elem_of_here|assumption].
  - apply list_elem_of_fmap in Hin as (p & -> & Hin).
    apply list_elem_of_fmap in Hin as (v & -> & Hin).
    exists v. split; [assumption|]. rewrite Heq.
    apply fle_antisym; now apply fle_refl.
Qed.

Lemma finite_pos_coord a v : finite_pos v -> finite (coord a (pos v)).
Proof. intros (Hx & Hy & Hz). now destruct a. Qed.

Lemma vec3_le_coord p q : vec3_le p q <-> forall a, fle (coord a p) (coord a q).
Proof.
  split.
  - intros (Hx & Hy & Hz) a. now destruct a.
  - intros H. split; [apply (H X_axis)|].
    split; [apply (H Y_axis)|apply (H Z_axis)].
Qed.

Lemma sentinel_numbers a :
  is_number (coord a (FVec3 FLT_MAX FLT_MAX FLT_MAX)) /\
  is_number (coord a (FVec3 FLT_LOWEST FLT_LOWEST FLT_LOWEST)).
Proof. now destruct a. Qed.

(** C9 (as the code has it).  When the scene build completes, let [vs] be
    the retained vertices.  If there is none, the box is the sentinel: every
    coordinate of [boxmin_] is the largest float, every coordinate of
    [boxmax_] the lowest one, so min > max.  Otherwise the box is folded
    over the coordinates that are numbers: on each axis, every vertex
    coordinate that is a number lies between [boxmin_] and [boxmax_], and
    [boxmin_ <= boxmax_] holds as soon as one vertex has a number on that
    axis.  A NaN coordinate is skipped by the comparison: on an axis on
    which every vertex has NaN the box keeps the sentinel, although vertices
    were added.  When all coordinates are finite floats, every vertex lies
    in the box, [boxmin_ <= boxmax_] on the three axes, and each coordinate
    of each corner is the coordinate of some vertex: the box is the union
    of the vertex positions. *)
Theorem bounding_box_union rnd s s' printed :
  parse_scene rnd s = Ok (s', printed) ->
  let vs := scene_vertices (obj_ s) (shapes (obj_ s)) in
  (vs = [] ->
   boxmin_ s' = FVec3 FLT_MAX FLT_MAX FLT_MAX /\
   boxmax_ s' = FVec3 FLT_LOWEST FLT_LOWEST FLT_LOWEST /\
   forall a,
     Binary32.ltb (coord a (boxmax_ s')) (coord a (boxmin_ s')) = true) /\
  (forall a v,
     v ∈ vs -> is_number (coord a (pos v)) ->
     fle (coord a (boxmin_ s')) (coord a (pos v)) /\
     fle (coord a (pos v)) (coord a (boxmax_ s'))) /\
  (forall a,
     (exists v, v ∈ vs /\ is_number (coord a (pos v))) ->
     fle (coord a (boxmin_ s')) (coord a (boxmax_ s'))) /\
  (forall a,
     (forall v, v ∈ vs -> coord a (pos v) = S754_nan) ->
     coord a (boxmin_ s') = FLT_MAX /\ coord a (boxmax_ s') = FLT_LOWEST) /\
  (vs <> [] -> Forall finite_pos vs ->
   (forall v, v ∈ vs ->
      vec3_le (boxmin_ s') (pos v) /\ vec3_le (pos v) (boxmax_ s')) /\
   vec3_le (boxmin_ s') (boxmax_ s') /\
   forall a, attained_by a (boxmin_ s') vs /\ attained_by a (boxmax_ s') vs).
Proof.
  intros Hok vs.
  apply parse_scene_ok in Hok as (_ & _ & _ & _ & _ & _ & Hlo & Hhi & _).
  fold vs in Hlo, Hhi.
  assert (Hin : forall a v,
            v ∈ vs -> is_number (coord a (pos v)) ->
            fle (coord a (boxmin_ s')) (coord a (pos v)) /\
            fle (coord a (pos v)) (coord a (boxmax_ s'))).
  { intros a v Hv Hnum. rewrite Hlo, Hhi.
    apply box_contains; try assumption; apply sentinel_numbers. }
  assert (Hord : forall a,
            (exists v, v ∈ vs /\ is_number (coord a (pos v))) ->
            fle (coord a (boxmin_ s')) (coord a (boxmax_ s'))).
  { intros a (v & Hv & Hnum). destruct (Hin a v Hv Hnum).
    eapply fle_trans; eassumption. }
  split; [|split; [exact Hin|split; [exact Hord|split]]].
  - intros Hnil. rewrite Hlo, Hhi, Hnil. cbn.
    split; [reflexivity|]. split; [reflexivity|]. now intros [].
  - intros a Hnan. rewrite Hlo, Hhi.
    destruct (box_skips_nan a vs (FVec3 FLT_MAX FLT_MAX FLT_MAX)
                (FVec3 FLT_LOWEST FLT_LOWEST FLT_LOWEST) Hnan) as [-> ->].
    now destruct a.
  - intros Hne Hfin. rewrite Forall_forall in Hfin.
    assert (Hnum : forall a v, v ∈ vs -> is_number (coord a (pos v))).
    { intros a v Hv.
      destruct (finite_pos_coord a v (Hfin v Hv)) as [_ Hle].
      apply (fle_is_number _ _ Hle). }
    split; [|split].
    + intros v Hv. rewrite !vec3_le_coord.
      split; intros a; now apply Hin, Hnum.
    + apply vec3_le_coord. intros a. apply Hord.
      destruct vs as [|v0 vs']; [congruence|].
      exists v0. split; [apply list_elem_of_here|].
      apply Hnum, list_elem_of_here.
    + intros a. rewrite Hlo, Hhi. split.
      * apply box_min_attained; [assumption|]. intros v Hv.
        destruct (finite_pos_coord a v (Hfin v Hv)) as [_ Hle].
        now destruct a.
      * apply box_max_attained; [assumption|]. intros v Hv.
        destruct (finite_pos_coord a v (Hfin v Hv)) as [Hge _].
        now destruct a.
Qed.

Lemma bounding_box_union_witness :
  parse_scene sample_rand sample_scene = Ok (sample_built, sample_printed) /\
  (sample_vertices = [] ->
   boxmin_ sample_built = FVec3 FLT_MAX FLT_MAX FLT_MAX /\
   boxmax_ sample_built = FVec3 FLT_LOWEST FLT_LOWEST FLT_LOWEST /\
   forall a,
     Binary32.ltb (coord a (boxmax_ sample_built))
                  (coord a (boxmin_ sample_built)) = true) /\
  (forall a v,
     v ∈ sample_vertices -> is_number (coord a (pos v)) ->
     fle (coord a (boxmin_ sample_built)) (coord a (pos v)) /\
     fle (coord a (pos v)) (coord a (boxmax_ sample_built))) /\
  (forall a,
     (exists v, v ∈ sample_vertices /\ is_number (coord a (pos v))) ->
     fle (coord a (boxmin_ sample_built)) (coord a (boxmax_ sample_built))) /\
  (forall a,
     (forall v, v ∈ sample_vertices -> coord a (pos v) = S754_nan) ->
     coord a (boxmin_ sample_built) = FLT_MAX /\
     coord a (boxmax_ sample_built) = FLT_LOWEST) /\
  (sample_vertices <> [] -> Forall finite_pos sample_vertices ->
   (forall v, v ∈ sample_vertices ->
      vec3_le (boxmin_ sample_built) (pos v) /\
      vec3_le (pos v) (boxmax_ sample_built)) /\
   vec3_le (boxmin_ sample_built) (boxmax_ sample_built) /\
   forall a,
     attained_by a (boxmin_ sample_built) sample_vertices /\
     attained_by a (boxmax_ sample_built) sample_vertices).
Proof.
  split; [vm_compute; reflexivity|].
  apply (bounding_box_union sample_rand sample_scene
           sample_built sample_printed).
  vm_compute. reflexivity.
Defined.

Example sample_coordinates :
  sample_coordinate <$> [0; 1; 2; 3; 4; 5; 6; 7; 8; 9]
  = Binary32.of_Z <$> [0; 1; 2; 3; 4; 5; 6; 7; 8; 9].
Proof. vm_compute. reflexivity. Qed.

(* The box of the sample scene, and the sentinel of a scene without shapes. *)
Example sample_scene_box :
  boxmin_ sample_built
  = FVec3 (Binary32.of_Z 0) (Binary32.of_Z 0) (Binary32.of_Z 0) /\
  boxmax_ sample_built
  = FVec3 (Binary32.of_Z 9) (Binary32.of_Z 9) (Binary32.of_Z 7) /\
  Forall finite_pos sample_vertices.
Proof.
  split; [vm_compute; reflexivity|]. split; [vm_compute; reflexivity|].
  let vs := eval vm_compute in sample_vertices in
  change (Forall finite_pos vs).
  repeat constructor.
Qed.

Example empty_scene_box :
  parse_scene sample_rand (scene_of [] 0)
  = Ok (built sample_rand (scene_of [] 0)) /\
  boxmin_ (built sample_rand (scene_of [] 0)).1
  = FVec3 FLT_MAX FLT_MAX FLT_MAX /\
  boxmax_ (built sample_rand (scene_of [] 0)).1
  = FVec3 FLT_LOWEST FLT_LOWEST FLT_LOWEST.
Proof. repeat split; vm_compute; reflexivity. Qed.

(** C9, counterexample.  Every face of [nan_scene] has one vertex, whose x
    coordinate is NaN.  The build completes and adds the vertex to the
    mesh, but on the x axis the box is still the sentinel: [boxmin_] is the
    largest float and [boxmax_] the lowest one, so [boxmin_ <= boxmax_]
    fails although a vertex was added, and the vertex does not lie between
    the corners. *)
Lemma nan_vertex_leaves_sentinel :
  parse_scene sample_rand nan_scene = Ok (built sample_rand nan_scene) /\
  vertices <$> mesh_ (built sample_rand nan_scene).1 = [[nan_vertex]] /\
  scene_vertices (obj_ nan_scene) (shapes (obj_ nan_scene)) = [nan_vertex] /\
  f3x (boxmin_ (built sample_rand nan_scene).1) = FLT_MAX /\
  f3x (boxmax_ (built sample_rand nan_scene).1) = FLT_LOWEST /\
  ~ vec3_le (boxmin_ (built sample_rand nan_scene).1)
            (boxmax_ (built sample_rand nan_scene).1) /\
  ~ vec3_le (boxmin_ (built sample_rand nan_scene).1) (pos nan_vertex).
Proof.
  split; [vm_compute; reflexivity|]. split; [vm_compute; reflexivity|].
  split; [vm_compute; reflexivity|]. split; [vm_compute; reflexivity|].
  split; [vm_compute; reflexivity|].
  split; intros (Hx & _); vm_compute in Hx; discriminate.
Qed.

(** ** Fragment shader *)

Lemma fmin_le_l x y : (fmin x y <= x)%Q.
Proof.
  unfold fmin. destruct (Qcompare_spec y x) as [H|H|H];
    [apply Qle_refl|apply Qlt_le_weak, H|apply Qle_refl].
Qed.

Lemma fmin_le_r x y : (fmin x y <= y)%Q.
Proof.
  unfold fmin. destruct (Qcompare_spec y x) as [H|H|H].
  - rewrite H. apply Qle_refl.
  - apply Qle_refl.
  - apply Qlt_le_weak, H.
Qed.

Lemma fmin_cases x y : fmin x y = x \/ fmin x y = y.
Proof. unfold fmin. destruct (y ?= x)%Q; auto. Qed.

Lemma fmax_ge_l x y : (x <= fmax x y)%Q.
Proof.
  unfold fmax. destruct (Qcompare_spec x y) as [H|H|H];
    [apply Qle_refl|apply Qlt_le_weak, H|apply Qle_refl].
Qed.

Lemma fmax_ge_r x y : (y <= fmax x y)%Q.
Proof.
  unfold fmax. destruct (Qcompare_spec x y) as [H|H|H].
  - rewrite H. apply Qle_refl.
  - apply Qle_refl.
  - apply Qlt_le_weak, H.
Qed.

Lemma fmax_cases x y : fmax x y = x \/ fmax x y = y.
Proof. unfold fmax. destruct (x ?= y)%Q; auto. Qed.

(** C7. In shading mode 2 the fragment color is the flat color [Kd] with
    alpha 1, whatever the eye position, the ambient coefficient, the
    dissolve, the texture, [minDepth] and the fragment's position, normal,
    texture coordinate and depth are: no lighting term enters it. *)
Theorem constant_mode_is_flat
    (normalize normalize' : vec3 -> vec3)
    (flat Ka Ka' eye eye' : vec3) (dissolve dissolve' : Q)
    (tex tex' : vec2 -> vec4) (minDepth minDepth' : Q)
    (fr fr' : SUNCGShader.fragment) :
  let u := {| SUNCGShader.mode := 2; SUNCGShader.Kd := flat;
              SUNCGShader.Ka := Ka; SUNCGShader.eye := eye;
              SUNCGShader.dissolve := dissolve;
              SUNCGShader.texture_diffuse := tex;
              SUNCGShader.minDepth := minDepth |} in
  let u' := {| SUNCGShader.mode := 2; SUNCGShader.Kd := flat;
               SUNCGShader.Ka := Ka'; SUNCGShader.eye := eye';
               SUNCGShader.dissolve := dissolve';
               SUNCGShader.texture_diffuse := tex';
               SUNCGShader.minDepth := minDepth' |} in
  SUNCGShader.main normalize u fr
  = Some (Vec4 (v3x flat) (v3y flat) (v3z flat) 1) /\
  SUNCGShader.main normalize' u' fr' = SUNCGShader.main normalize u fr.
Proof. split; reflexivity. Qed.

(* A lit mode for comparison: in mode 1 the same flat color is shaded, here
   to 3/10 of red (the fractions are not reduced). *)
Example lighting_mode_shades :
  SUNCGShader.main (fun v => v)
    {| SUNCGShader.mode := 1; SUNCGShader.Kd := Vec3 1 0 0;
       SUNCGShader.Ka := Vec3 0 0 0; SUNCGShader.eye := Vec3 0 0 0;
       SUNCGShader.dissolve := 1;
       SUNCGShader.texture_diffuse := fun _ => Vec4 1 1 1 1;
       SUNCGShader.minDepth := 1 # 10 |}
    {| SUNCGShader.pos := Vec3 0 0 1; SUNCGShader.normal := Vec3 0 0 1;
       SUNCGShader.texcoord := Vec2 0 0; SUNCGShader.FragCoord_z := 1 # 2 |}
  = Some (Vec4 (30 # 100) (0 # 100) (0 # 100) 1).
Proof. vm_compute. reflexivity. Qed.

Lemma Qfloor_unique (x : Q) (n : Z) :
  (inject_Z n <= x)%Q -> (x < inject_Z (n + 1))%Q -> Qfloor x = n.
Proof.
  intros Hlo Hhi.
  pose proof (Qfloor_le x) as H1. pose proof (Qlt_floor x) as H2.
  assert (Ha : (inject_Z (Qfloor x) < inject_Z (n + 1))%Q)
    by (eapply Qle_lt_trans; eassumption).
  assert (Hb : (inject_Z n < inject_Z (Qfloor x + 1))%Q)
    by (eapply Qle_lt_trans; eassumption).
  rewrite <- Zlt_Qlt in Ha, Hb. lia.
Qed.

Lemma InverseDepth_linear d :
  (SUNCGShader.InverseDepth d == 10 - (999 # 100) * d)%Q.
Proof.
  unfold SUNCGShader.InverseDepth, SUNCGShader.INV_NEAR, SUNCGShader.INV_FAR,
    SUNCGShader.NEAR, SUNCGShader.FAR.
  field.
Qed.

(** C1.  The comments of the shader give the ranges that the round trip
    needs: [f] in [0, 65535], [ms] and [ls] in {0, ..., 255}.  The code does
    not keep them.  Evaluated in single precision:
    - with [minDepth = 1], the fragment whose depth buffer value is the
      float nearest to 800/999 has inverse depth 2 (depth 1/2, nearer than
      [minDepth]); [f] is 131070.5, [ms] is 511, the red channel saturates
      at 255 and the pixel (255, 254) decodes to 65534/65535, further than
      the quantization step from the fragment's inverse depth;
    - with [minDepth = 100], the fragment on the far plane (depth buffer
      value 1, inverse depth 1/100, which is [1 / minDepth]) should get the
      code 65535; [InverseDepth] loses precision in its subtraction, [f] is
      65537, [ms] is 256, [ls] is 1, and the pixel (255, 1) decodes to
      65281/6553500, further than the quantization step from 1/100. *)
Theorem inverse_depth_code_overflows :
  (let min_depth := Binary32.of_Z 1 in
   let z := Binary32.div (Binary32.of_Z 800) (Binary32.of_Z 999) in
   let f := SUNCGShader32.f_of min_depth (SUNCGShader32.InverseDepth z) in
   let p := {| chR := 255; chG := 254; chB := 0; chA := 255 |} in
   has_value min_depth 1 /\
   has_value (SUNCGShader32.InverseDepth z) 2 /\
   has_value f (262141 # 2) /\
   SUNCGShader32.ms_of f = Binary32.of_Z 511 /\
   SUNCGShader32.ls_of f (SUNCGShader32.ms_of f) = Binary32.of_Z 254 /\
   inverse_depth_pixel min_depth z = Some p /\
   depth_code p = 65534 /\
   exists d,
     Binary32.to_Q z = Some d /\ (0 <= d)%Q /\ (d <= 1)%Q /\
     ~ (Qabs (decode_inverse_depth 1 p - SUNCGShader.InverseDepth d)
        <= 1 / (65535 * 1))%Q) /\
  (let min_depth := Binary32.of_Z 100 in
   let z := Binary32.of_Z 1 in
   let f := SUNCGShader32.f_of min_depth (SUNCGShader32.InverseDepth z) in
   let p := {| chR := 255; chG := 1; chB := 0; chA := 255 |} in
   has_value min_depth 100 /\ has_value z 1 /\
   (SUNCGShader.InverseDepth 1 == 1 # 100)%Q /\
   has_value f 65537 /\
   SUNCGShader32.ms_of f = Binary32.of_Z 256 /\
   SUNCGShader32.ls_of f (SUNCGShader32.ms_of f) = Binary32.of_Z 1 /\
   inverse_depth_pixel min_depth z = Some p /\
   depth_code p = 65281 /\
   ~ (Qabs (decode_inverse_depth 100 p - SUNCGShader.InverseDepth 1)
      <= 1 / (65535 * 100))%Q).
Proof.
  split; cbv zeta.
  - split; [vm_compute; reflexivity|]. split; [vm_compute; reflexivity|].
    split; [vm_compute; reflexivity|]. split; [vm_compute; reflexivity|].
    split; [vm_compute; reflexivity|]. split; [vm_compute; reflexivity|].
    split; [reflexivity|].
    eexists. split; [vm_compute; reflexivity|].
    split; [vm_compute; discriminate|]. split; [vm_compute; discriminate|].
    intros H. vm_compute in H. now apply H.
  - split; [vm_compute; reflexivity|]. split; [vm_compute; reflexivity|].
    split; [vm_compute; reflexivity|]. split; [vm_compute; reflexivity|].
    split; [vm_compute; reflexivity|]. split; [vm_compute; reflexivity|].
    split; [vm_compute; reflexivity|]. split; [reflexivity|].
    intros H. vm_compute in H. now apply H.
Qed.

(* Rounding alone can cost more than one step.  With [minDepth = 20] the
   fragment with depth buffer value 16773019 / 2^24 is not nearer than
   [minDepth] and its code fits 16 bits, yet the pixel (64, 0) decodes
   further than the quantization step from the fragment's inverse depth. *)
Example inverse_depth_rounding :
  let min_depth := Binary32.of_Z 20 in
  let z := S754_finite false 16773019 (-24) in
  let d := (16773019 # 16777216)%Q in
  let p := {| chR := 64; chG := 0; chB := 0; chA := 255 |} in
  valid_binary Binary32.prec Binary32.emax z = true /\
  has_value z d /\
  (20 * SUNCGShader.InverseDepth d <= 1)%Q /\
  inverse_depth_pixel min_depth z = Some p /\
  ~ (Qabs (decode_inverse_depth 20 p - SUNCGShader.InverseDepth d)
     <= 1 / (65535 * 20))%Q.
Proof.
  cbv zeta. split; [reflexivity|]. split; [vm_compute; reflexivity|].
  split; [vm_compute; discriminate|]. split; [vm_compute; reflexivity|].
  intros H. vm_compute in H. now apply H.
Qed.

(* With the default [minDepth] (the uniform's initializer [NEAR]) and a
   fragment in the middle of the depth range, the two bytes fit: the code
   32800 is the rounding of 65535 * 0.1 * 5.005. *)
Example mid_range_pixel :
  inverse_depth_pixel SUNCGShader32.NEAR
    (Binary32.div (Binary32.of_Z 1) (Binary32.of_Z 2))
  = Some {| chR := 128; chG := 32; chB := 0; chA := 255 |}.
Proof. vm_compute. reflexivity. Qed.

(** * Further properties of the code *)

(** ** Color allocator: the ends of the range *)

Lemma in_palette_decodes rnd count palette c :
  0 <= count <= INT_MAX ->
  get_uniform_sampled_colors rnd count = Some palette ->
  c ∈ palette ->
  exists k, (k < Z.to_nat count)%nat /\
            c = color_of_int (color_cube / (count + 2) * (Z.of_nat k + 1)).
Proof.
  intros Hc Hget Hin. unfold get_uniform_sampled_colors in Hget.
  rewrite (sampled_colors_spec count Hc) in Hget. injection Hget as <-.
  rewrite random_shuffle_perm in Hin.
  apply list_elem_of_In, in_map_iff in Hin as (k & <- & Hk).
  apply in_seq in Hk. exists k. split; [lia|reflexivity].
Qed.

(** X1. For every count up to 16777214 the allocator hands out neither
    black nor white: the values that it decodes lie strictly between 0 and
    256^3 - 1, so an instance color never coincides with either end of the
    color cube. *)
Theorem allocator_never_black_or_white rnd count palette c :
  0 <= count <= 16777214 ->
  get_uniform_sampled_colors rnd count = Some palette ->
  c ∈ palette ->
  ~ vec3_eq c (Vec3 0 0 0) /\ ~ vec3_eq c (Vec3 1 1 1).
Proof.
  intros Hc Hget Hin.
  assert (Hc' : 0 <= count <= INT_MAX) by (unfold INT_MAX; lia).
  destruct (in_palette_decodes rnd count palette c Hc' Hget Hin)
    as (k & Hk & ->).
  destruct (interval_length_bounds count Hc') as [_ Hle].
  assert (Hiv : 0 < color_cube / (count + 2))
    by (apply Z.div_str_pos; unfold color_cube; lia).
  set (v := color_cube / (count + 2) * (Z.of_nat k + 1)).
  assert (Hv : 1 <= v <= color_cube - 2) by (unfold v; nia).
  unfold color_cube in Hv.
  assert (Heq0 : vec3_eq (color_of_int 0) (Vec3 0 0 0))
    by (repeat split; reflexivity).
  assert (Heq1 : vec3_eq (color_of_int 16777215) (Vec3 1 1 1))
    by (repeat split; reflexivity).
  split; intros Heq.
  - assert (v = 0); [|lia].
    apply color_of_int_inj; [unfold color_cube; lia..|].
    destruct Heq as (?&?&?), Heq0 as (?&?&?).
    repeat split; etransitivity; try eassumption; symmetry; assumption.
  - assert (v = 16777215); [|lia].
    apply color_of_int_inj; [unfold color_cube; lia..|].
    destruct Heq as (?&?&?), Heq1 as (?&?&?).
    repeat split; etransitivity; try eassumption; symmetry; assumption.
Qed.

Lemma allocator_never_black_or_white_witness :
  (0 <= 4 <= 16777214 /\
   get_uniform_sampled_colors sample_rand 4 = Some (sample_palette 4) /\
   Vec3 (170 # 255) (170 # 255) (42 # 255) ∈ sample_palette 4) /\
  ~ vec3_eq (Vec3 (170 # 255) (170 # 255) (42 # 255)) (Vec3 0 0 0) /\
  ~ vec3_eq (Vec3 (170 # 255) (170 # 255) (42 # 255)) (Vec3 1 1 1).
Proof.
  assert (H1 : 0 <= 4 <= 16777214) by lia.
  assert (H2 : get_uniform_sampled_colors sample_rand 4
               = Some (sample_palette 4)) by (vm_compute; reflexivity).
  assert (H3 : Vec3 (170 # 255) (170 # 255) (42 # 255) ∈ sample_palette 4).
  { vm_compute. apply list_elem_of_here. }
  split; [split; [exact H1|split; [exact H2|exact H3]]|].
  apply (allocator_never_black_or_white sample_rand 4 (sample_palette 4)
           (Vec3 (170 # 255) (170 # 255) (42 # 255)) H1 H2 H3).
Defined.

(** X2. From count 16777215 on, the spacing [256^3 / (count + 2)] is 0 and
    the allocator returns [count] copies of one color, the decoding of 0:
    instances are no longer told apart. *)
Theorem allocator_collapses_beyond_cube rnd count :
  16777215 <= count <= INT_MAX ->
  get_uniform_sampled_colors rnd count
  = Some (replicate (Z.to_nat count) (color_of_int 0)).
Proof.
  intros Hc. unfold get_uniform_sampled_colors.
  rewrite sampled_colors_spec by lia.
  rewrite Z.div_small by (unfold color_cube; lia).
  f_equal. symmetry. apply replicate_Permutation.
  rewrite random_shuffle_perm.
  assert (Hmap : forall n a,
            map (fun k => color_of_int (0 * (Z.of_nat k + 1))) (seq a n)
            = replicate n (color_of_int 0)).
  { induction n as [|n IH]; intros a; cbn [seq map replicate];
      [reflexivity|]. now rewrite IH. }
  now rewrite Hmap.
Qed.

Lemma allocator_collapses_beyond_cube_witness :
  16777215 <= 16777215 <= INT_MAX /\
  get_uniform_sampled_colors sample_rand 16777215
  = Some (replicate (Z.to_nat 16777215) (color_of_int 0)).
Proof.
  assert (H : 16777215 <= 16777215 <= INT_MAX) by (unfold INT_MAX; lia).
  split; [exact H|].
  apply (allocator_collapses_beyond_cube sample_rand 16777215 H).
Defined.

(** X3. Among the counts for which [count + 2] does not overflow (all of
    [int] but its two largest values), the allocator has no defined result
    for exactly one, -2, where it divides by zero; every other negative
    count gives the empty palette. *)
Theorem allocator_defined_but_for_minus_two rnd count :
  -2147483648 <= count <= INT_MAX - 2 ->
  (get_uniform_sampled_colors rnd count = None <-> count = -2) /\
  (count < 0 -> count <> -2 ->
   get_uniform_sampled_colors rnd count = Some []).
Proof.
  intros Hc.
  assert (Hsum : int_add count 2 = count + 2)
    by (apply wrap_int_small; unfold INT_MAX in *; lia).
  unfold get_uniform_sampled_colors, sampled_colors. rewrite Hsum.
  destruct (Z.eqb_spec (count + 2) 0) as [Hz|Hz].
  - split; [split; [intros _; lia|reflexivity]|].
    intros _ Hne. lia.
  - split.
    + split; [discriminate|]. intros ->. now destruct Hz.
    + intros Hneg _. destruct count; try lia. reflexivity.
Qed.

Lemma allocator_defined_but_for_minus_two_witness :
  -2147483648 <= -5 <= INT_MAX - 2 /\
  (get_uniform_sampled_colors sample_rand (-5) = None <-> -5 = -2) /\
  (-5 < 0 -> -5 <> -2 ->
   get_uniform_sampled_colors sample_rand (-5) = Some []).
Proof.
  assert (H : -2147483648 <= -5 <= INT_MAX - 2) by (unfold INT_MAX; lia).
  split; [exact H|].
  apply (allocator_defined_but_for_minus_two sample_rand (-5) H).
Defined.

(** ** Category resolver: the other rules *)

Lemma substring_whole s : String.substring 0 (String.length s) s = s.
Proof. induction s as [|a s IH]; cbn; [reflexivity|now rewrite IH]. Qed.

(** X5. A name that starts with [Model#] gets its color through the
    category table alone: what follows the prefix, whatever it contains, is
    the model id that is looked up, and the color is the color table's
    entry for the category found.  A [#] further on or the text [Ground] in
    the id play no role. *)
Theorem resolver_model_rule (s : SUNCGScene) (model_id : string) :
  fst (get_color_by_shape_name s (String.append "Model#" model_id))
  = get_color s (name_from_mode_id s model_id).
Proof.
  unfold get_color_by_shape_name, starts_with, substr_from. cbn.
  rewrite Nat.sub_0_r.
  assert (String.prefix "" model_id = true) as ->
    by (destruct model_id; reflexivity).
  now rewrite substring_whole.
Qed.

(* A name for which the resolver has no rule. *)
Lemma unparseable_spec nm :
  unparseable nm = true <->
  starts_with "Model#" nm = false /\ nm <> "Ground"%string /\
  find_char "#"%char nm = None.
Proof.
  unfold unparseable.
  destruct (starts_with "Model#" nm); cbn [negb andb];
    [split; [discriminate|intros (? & _); discriminate]|].
  destruct (String.eqb_spec nm "Ground") as [->|Hne]; cbn [negb andb].
  { split; [discriminate|]. intros (_ & Hg & _). now destruct Hg. }
  destruct (find_char "#"%char nm); split; try discriminate; auto.
  intros (_ & _ & ?). discriminate.
Qed.

Lemma resolver_printed s nm :
  snd (get_color_by_shape_name s nm)
  = if unparseable nm then [failed_color_message nm] else [].
Proof.
  unfold get_color_by_shape_name, unparseable.
  destruct (starts_with "Model#" nm); [reflexivity|].
  destruct (String.eqb nm "Ground"); [reflexivity|].
  destruct (find_char "#"%char nm); reflexivity.
Qed.

(** X6. The resolver issues its own diagnostic (the [print_debug] before
    its last [return]) exactly for the names that match none of its rules
    (no [Model#] prefix, not [Ground], no [#]); for every other name it
    returns before that call.  The message is issued at most once per
    call.  What the table lookups print on their own is theirs, and not
    part of this statement. *)
Theorem resolver_diagnostic_iff (s : SUNCGScene) (nm : string) :
  (snd (get_color_by_shape_name s nm) = [failed_color_message nm] \/
   snd (get_color_by_shape_name s nm) = []) /\
  (snd (get_color_by_shape_name s nm) <> [] <->
   starts_with "Model#" nm = false /\ nm <> "Ground"%string /\
   find_char "#"%char nm = None).
Proof.
  rewrite resolver_printed, <- unparseable_spec.
  destruct (unparseable nm).
  - split; [now left|]. split; [reflexivity|discriminate].
  - split; [now right|]. split; [intros H; now destruct H|discriminate].
Qed.

(** ** Model filter *)

Lemma elem_of_read_blacklist lines x :
  x ∈ read_blacklist lines <->
  exists str, str ∈ lines /\ x = String.append "Model#" str.
Proof.
  unfold read_blacklist.
  assert (Hgen : forall acc : listset string,
    x ∈ foldl (fun blk str => blk ∪ {[ String.append "Model#" str ]})
              acc lines <->
    x ∈ acc \/ exists str, str ∈ lines /\ x = String.append "Model#" str).
  { induction lines as [|l lines IH]; intros acc; cbn [foldl].
    - split; [now left|]. intros [H|(str & Hin & _)]; [exact H|].
      inversion Hin.
    - rewrite IH, elem_of_union, elem_of_singleton. split.
      + intros [[H | ->] | (str & Hin & ->)]; [now left|right..].
        * exists l. split; [apply list_elem_of_here|reflexivity].
        * exists str. split; [now apply list_elem_of_further|reflexivity].
      + intros [H|(str & Hin & ->)]; [now left; left|].
        apply elem_of_cons in Hin as [-> | Hin]; [left; now right|].
        right. exists str. split; [assumption|reflexivity]. }
  rewrite Hgen. split; [|now right].
  intros [H|H]; [|exact H]. now apply not_elem_of_empty in H.
Qed.

Lemma filter_models_shapes fs file s lines :
  fs file = Some lines ->
  shapes (obj_ (filter_models fs file s).1)
  = filter (fun shape => name shape ∉ read_blacklist lines) (shapes (obj_ s)).
Proof. intros Hf. unfold filter_models. now rewrite Hf. Qed.

(** X7. With a blacklist file that opens, a shape survives [filter_models]
    exactly when it was in the scene and its name is not [Model#] followed by
    a line of the file; the survivors keep their order, and nothing but the
    shape list changes: the original shape count, the materials, the tables
    and what was already built stay as they were. *)
Theorem filter_models_keeps_the_rest fs file s lines :
  fs file = Some lines ->
  (forall shape,
     shape ∈ shapes (obj_ (filter_models fs file s).1) <->
     shape ∈ shapes (obj_ s) /\
     ~ exists str, str ∈ lines /\ name shape = String.append "Model#" str) /\
  shapes (obj_ (filter_models fs file s).1) `sublist_of` shapes (obj_ s) /\
  original_num_shapes (obj_ (filter_models fs file s).1)
  = original_num_shapes (obj_ s) /\
  materials (obj_ (filter_models fs file s).1) = materials (obj_ s) /\
  mesh_ (filter_models fs file s).1 = mesh_ s /\
  materials_ (filter_models fs file s).1 = materials_ s /\
  (filter_models fs file s).2 = [].
Proof.
  intros Hf. rewrite (filter_models_shapes fs file s lines Hf).
  split.
  { intros shape. rewrite list_elem_of_filter, elem_of_read_blacklist.
    tauto. }
  split; [apply sublist_filter|].
  unfold filter_models. rewrite Hf. repeat split; reflexivity.
Qed.

(** X8. Whatever the blacklist file holds, and whether it opens or not,
    [filter_models] never removes a shape whose name does not start with
    [Model#]: the ground, the walls and the other architecture stay. *)
Theorem filter_models_spares_architecture fs file s shape :
  shape ∈ shapes (obj_ s) ->
  starts_with "Model#" (name shape) = false ->
  shape ∈ shapes (obj_ (filter_models fs file s).1).
Proof.
  intros Hin Hprefix. destruct (fs file) as [lines|] eqn:Hf.
  - rewrite (filter_models_shapes fs file s lines Hf).
    apply list_elem_of_filter. split; [|assumption].
    rewrite elem_of_read_blacklist. intros (str & _ & Heq).
    rewrite Heq in Hprefix. unfold starts_with in Hprefix. cbn in Hprefix.
    destruct str; discriminate.
  - unfold filter_models. now rewrite Hf.
Qed.

(** X9. Filtering is idempotent: a second pass with the same file removes
    nothing more and leaves the scene as the first pass left it.  And
    without a file that opens nothing is filtered at all: the scene is
    returned as it is, with the one diagnostic. *)
Theorem filter_models_idempotent fs file s :
  (filter_models fs file (filter_models fs file s).1).1
  = (filter_models fs file s).1 /\
  (fs file = None ->
   filter_models fs file s = (s, [could_not_open_message file])).
Proof.
  unfold filter_models. destruct (fs file) as [lines|]; cbn [fst].
  - split; [|discriminate]. unfold with_build, with_shapes. cbn.
    f_equal. f_equal.
    rewrite list_filter_filter. apply list_filter_iff. tauto.
  - split; [reflexivity|reflexivity].
Qed.

Lemma filter_models_witness_facts :
  sample_files blacklist_txt = Some ["5"; "7"]%string /\
  name <$> shapes (obj_ sample_filtered)
  = ["Ground"; "WallInside#1"]%string.
Proof. split; vm_compute; reflexivity. Qed.

Lemma filter_models_keeps_the_rest_witness :
  sample_files blacklist_txt = Some ["5"; "7"]%string /\
  (forall shape,
     shape ∈ shapes (obj_ sample_filtered) <->
     shape ∈ shapes (obj_ sample_scene) /\
     ~ exists str, str ∈ ["5"; "7"]%string /\
                   name shape = String.append "Model#" str) /\
  shapes (obj_ sample_filtered)
    `sublist_of` shapes (obj_ sample_scene) /\
  original_num_shapes
    (obj_ sample_filtered)
  = original_num_shapes (obj_ sample_scene) /\
  materials (obj_ sample_filtered)
  = materials (obj_ sample_scene) /\
  mesh_ sample_filtered
  = mesh_ sample_scene /\
  materials_ sample_filtered
  = materials_ sample_scene /\
  (filter_models sample_files blacklist_txt sample_scene).2 = [].
Proof.
  assert (H : sample_files blacklist_txt = Some ["5"; "7"]%string)
    by reflexivity.
  split; [exact H|].
  apply (filter_models_keeps_the_rest sample_files blacklist_txt
           sample_scene ["5"; "7"]%string H).
Defined.

Lemma filter_models_spares_architecture_witness :
  (sample_shape "Ground" 2 [(0, 0, 0); (9, 9, 0)] [1; 1]
     ∈ shapes (obj_ sample_scene) /\
   starts_with "Model#"
     (name (sample_shape "Ground" 2 [(0, 0, 0); (9, 9, 0)] [1; 1])) = false)
  /\
  sample_shape "Ground" 2 [(0, 0, 0); (9, 9, 0)] [1; 1]
    ∈ shapes (obj_ sample_filtered).
Proof.
  assert (H1 : sample_shape "Ground" 2 [(0, 0, 0); (9, 9, 0)] [1; 1]
                 ∈ shapes (obj_ sample_scene)).
  { apply list_elem_of_further, list_elem_of_here. }
  assert (H2 : starts_with "Model#"
     (name (sample_shape "Ground" 2 [(0, 0, 0); (9, 9, 0)] [1; 1])) = false)
    by reflexivity.
  split; [split; [exact H1|exact H2]|].
  apply (filter_models_spares_architecture sample_files blacklist_txt
           sample_scene _ H1 H2).
Defined.

Lemma filter_models_reads s fs file :
  name_from_mode_id (filter_models fs file s).1 = name_from_mode_id s /\
  get_color (filter_models fs file s).1 = get_color s /\
  background_color_ (filter_models fs file s).1 = background_color_ s /\
  materials_ (filter_models fs file s).1 = materials_ s /\
  original_num_shapes (obj_ (filter_models fs file s).1)
  = original_num_shapes (obj_ s) /\
  (forall shape, shape ∈ shapes (obj_ (filter_models fs file s).1) ->
                 shape ∈ shapes (obj_ s)).
Proof.
  unfold filter_models. destruct (fs file) as [lines|]; cbn.
  - repeat split; try reflexivity.
    intros shape Hin. now apply list_elem_of_filter in Hin.
  - repeat split; auto.
Qed.

Lemma resolver_reads_tables s s' nm :
  name_from_mode_id s' = name_from_mode_id s ->
  get_color s' = get_color s ->
  background_color_ s' = background_color_ s ->
  get_color_by_shape_name s' nm = get_color_by_shape_name s nm.
Proof.
  intros Hn Hg Hb. unfold get_color_by_shape_name. now rewrite Hn, Hg, Hb.
Qed.

(** X10. Filtering before the build changes no color: when the build of a
    scene completes, so does the build of the filtered scene, and a shape
    that survives the filter gets the same instance color, the same label
    color and the same material id in both, whatever its position has
    become. *)
Theorem filtering_keeps_colors rnd fs file s s1 p1 :
  parse_scene rnd s = Ok (s1, p1) ->
  exists s2 p2,
    parse_scene rnd (filter_models fs file s).1 = Ok (s2, p2) /\
    forall i j shape,
      shapes (obj_ s) !! i = Some shape ->
      shapes (obj_ (filter_models fs file s).1) !! j = Some shape ->
      exists md1 md2,
        materials_ s1 !! (length (materials_ s) + i)%nat = Some md1 /\
        materials_ s2 !! (length (materials_ s) + j)%nat = Some md2 /\
        instance_color md1 = instance_color md2 /\
        label_color md1 = label_color md2 /\
        mid md1 = mid md2.
Proof.
  intros Hok.
  apply parse_scene_ok in Hok
    as (palette & Hpal & Hwf & _ & _ & (mds & Hma & Hmds) & _).
  destruct (filter_models_reads s fs file)
    as (Hn & Hg & Hb & Hmat & Hnum & Hsub).
  set (sF := (filter_models fs file s).1) in *.
  assert (HpalF : get_uniform_sampled_colors rnd
                    (original_num_shapes (obj_ sF)) = Some palette)
    by now rewrite Hnum.
  assert (HmatF : materials (obj_ sF) = materials (obj_ s)).
  { unfold sF, filter_models. destruct (fs file); reflexivity. }
  assert (HwfF : Forall (well_formed_shape sF palette) (shapes (obj_ sF))).
  { rewrite Forall_forall in *. intros shape Hin.
    destruct (Hwf shape (Hsub shape Hin)) as (H1 & H2 & H3 & H4).
    unfold well_formed_shape, first_material_in_range. rewrite HmatF.
    split; [exact H1|]. split; [exact H2|]. split; [exact H3|exact H4]. }
  destruct (parse_scene_total rnd sF palette HpalF HwfF) as (s2 & p2 & Hok2).
  exists s2, p2. split; [exact Hok2|].
  apply parse_scene_ok in Hok2
    as (palette' & Hpal' & _ & _ & _ & (mds' & Hma' & Hmds') & _).
  assert (palette' = palette) as -> by congruence.
  intros i j shape Hi Hj.
  destruct (Forall2_lookup_left _ _ _ _ _ Hmds Hi) as (md1 & Hmd1 & Hd1).
  destruct (Forall2_lookup_left _ _ _ _ _ Hmds' Hj) as (md2 & Hmd2 & Hd2).
  exists md1, md2.
  split.
  { rewrite Hma, lookup_app_r by lia.
    now replace (length (materials_ s) + i - length (materials_ s))%nat
      with i by lia. }
  split.
  { rewrite Hma', Hmat, lookup_app_r by lia.
    now replace (length (materials_ s) + j - length (materials_ s))%nat
      with j by lia. }
  destruct Hd1 as (Hm1 & Hl1 & Hi1 & _), Hd2 as (Hm2 & Hl2 & Hi2 & _).
  rewrite (resolver_reads_tables s sF _ Hn Hg Hb) in Hl2.
  repeat split; congruence.
Qed.

Lemma filtering_keeps_colors_witness :
  parse_scene sample_rand sample_scene = Ok (sample_built, sample_printed) /\
  exists s2 p2,
    parse_scene sample_rand
      sample_filtered
    = Ok (s2, p2) /\
    forall i j shape,
      shapes (obj_ sample_scene) !! i = Some shape ->
      shapes (obj_ sample_filtered) !! j = Some shape ->
      exists md1 md2,
        materials_ sample_built !! (length (materials_ sample_scene) + i)%nat
        = Some md1 /\
        materials_ s2 !! (length (materials_ sample_scene) + j)%nat
        = Some md2 /\
        instance_color md1 = instance_color md2 /\
        label_color md1 = label_color md2 /\
        mid md1 = mid md2.
Proof.
  assert (H : parse_scene sample_rand sample_scene
              = Ok (sample_built, sample_printed))
    by (vm_compute; reflexivity).
  split; [exact H|].
  apply (filtering_keeps_colors sample_rand sample_files blacklist_txt
           sample_scene sample_built sample_printed H).
Defined.

(** ** Scene builder: completion, diagnostics, a second build *)

(** X11. The build completes exactly on the scenes that meet its
    preconditions: the palette is defined (the original shape count is not
    -2) and every shape has an original index inside the palette, one
    material id per face, at least one face, and a first material id that
    is an index into the loader's materials.  On every other scene it ends
    in a failed assertion or without defined behaviour. *)
Theorem build_completes_iff rnd s :
  ((exists s' printed, parse_scene rnd s = Ok (s', printed)) <->
   exists palette,
     get_uniform_sampled_colors rnd (original_num_shapes (obj_ s))
     = Some palette /\
     Forall (fun shape =>
               0 <= original_index shape < Z.of_nat (length palette) /\
               int_size (material_ids (mesh shape))
               = int_size (num_face_vertices (mesh shape)) /\
               0 < int_size (num_face_vertices (mesh shape)) /\
               exists first,
                 material_ids (mesh shape) !! 0%nat = Some first /\
                 0 <= first < Z.of_nat (length (materials (obj_ s))))
            (shapes (obj_ s))) /\
  ((exists s' printed, parse_scene rnd s = Ok (s', printed)) \/
   parse_scene rnd s = AssertionFailure \/ parse_scene rnd s = Undefined).
Proof.
  split.
  - split.
    + intros (s' & printed & Hok).
      apply parse_scene_ok in Hok as (palette & Hpal & Hwf & _).
      exists palette. split; [assumption|].
      eapply Forall_impl; [exact Hwf|].
      intros shape (Hi & Hrest). split; [|exact Hrest].
      now apply vec_index_is_Some.
    + intros (palette & Hpal & Hwf).
      eapply parse_scene_total; [eassumption|].
      eapply Forall_impl; [exact Hwf|].
      intros shape (Hi & Hrest). split; [|exact Hrest].
      now apply vec_index_is_Some.
  - destruct (parse_scene rnd s) as [[s' printed]| |]; eauto.
Qed.

Lemma printed_by_shapes s shps :
  concat (map (fun shp => snd (get_color_by_shape_name s (name shp))) shps)
  = failed_color_message <$>
      filter (fun nm => unparseable nm = true) (name <$> shps).
Proof.
  induction shps as [|shp shps IH]; [reflexivity|].
  cbn [map concat fmap list_fmap]. rewrite IH, resolver_printed.
  rewrite filter_cons. destruct (unparseable (name shp)) eqn:Hu.
  - rewrite decide_True by reflexivity. reflexivity.
  - rewrite decide_False by discriminate. reflexivity.
Qed.

(** X12. When the build completes, the descriptor of the shape at position
    [i] carries the color that the resolver gives to the shape's name, no
    texture yet, and a material pointer to its material id; and the
    [print_debug] calls of the build itself (the resolver's "Failed to get
    color" message is its only one) have written one message for each shape
    with an unparseable name, in the order of the shapes.  What the table
    lookups print on their own is theirs, and not part of [printed]. *)
Theorem build_labels_and_diagnostics rnd s s' printed :
  parse_scene rnd s = Ok (s', printed) ->
  (forall i shape,
     shapes (obj_ s) !! i = Some shape ->
     exists md,
       materials_ s' !! (length (materials_ s) + i)%nat = Some md /\
       label_color md = fst (get_color_by_shape_name s (name shape)) /\
       texture md = 0 /\ m md = mid md) /\
  printed =
    failed_color_message <$>
      filter (fun nm => unparseable nm = true) (name <$> shapes (obj_ s)).
Proof.
  intros Hok.
  apply parse_scene_ok in Hok
    as (palette & _ & _ & _ & _ & (mds & Hma & Hmds) & _ & _ & Hp).
  split.
  - intros i shape Hi.
    destruct (Forall2_lookup_left _ _ _ _ _ Hmds Hi) as (md & Hmd & Hdesc).
    exists md. split.
    + rewrite Hma, lookup_app_r by lia.
      now replace (length (materials_ s) + i - length (materials_ s))%nat
        with i by lia.
    + destruct Hdesc as (_ & Hl & _ & Ht & Hm). repeat split; assumption.
  - rewrite Hp. apply printed_by_shapes.
Qed.

Lemma build_labels_and_diagnostics_witness :
  parse_scene sample_rand garbage_scene = Ok (built sample_rand garbage_scene)
  /\
  (forall i shape,
     shapes (obj_ garbage_scene) !! i = Some shape ->
     exists md,
       materials_ (built sample_rand garbage_scene).1
         !! (length (materials_ garbage_scene) + i)%nat = Some md /\
       label_color md
       = fst (get_color_by_shape_name garbage_scene (name shape)) /\
       texture md = 0 /\ m md = mid md) /\
  (built sample_rand garbage_scene).2 =
    failed_color_message <$>
      filter (fun nm => unparseable nm = true)
             (name <$> shapes (obj_ garbage_scene)).
Proof.
  assert (H : parse_scene sample_rand garbage_scene
              = Ok ((built sample_rand garbage_scene).1,
                    (built sample_rand garbage_scene).2))
    by (vm_compute; reflexivity).
  split; [vm_compute; reflexivity|].
  apply (build_labels_and_diagnostics sample_rand garbage_scene _ _ H).
Defined.

Lemma palette_defined_for_all_sources rnd rnd' n palette :
  get_uniform_sampled_colors rnd n = Some palette ->
  exists palette', get_uniform_sampled_colors rnd' n = Some palette'.
Proof.
  unfold get_uniform_sampled_colors.
  destruct (sampled_colors n); [|discriminate]. eauto.
Qed.

(** X13. The build consumes the shapes: after a completed build the shape
    list is empty, while the materials and the original shape count of the
    loader stay.  A second build therefore completes too, prints nothing and
    adds no mesh and no descriptor, but it resets the bounding box to the
    sentinel (min > max): the box of the first build is lost. *)
Theorem second_build_resets_box rnd rnd' s s' printed :
  parse_scene rnd s = Ok (s', printed) ->
  shapes (obj_ s') = [] /\
  materials (obj_ s') = materials (obj_ s) /\
  original_num_shapes (obj_ s') = original_num_shapes (obj_ s) /\
  exists s'',
    parse_scene rnd' s' = Ok (s'', []) /\
    mesh_ s'' = mesh_ s' /\
    materials_ s'' = materials_ s' /\
    boxmin_ s'' = FVec3 FLT_MAX FLT_MAX FLT_MAX /\
    boxmax_ s'' = FVec3 FLT_LOWEST FLT_LOWEST FLT_LOWEST.
Proof.
  intros Hok.
  apply parse_scene_ok in Hok as (palette & Hpal & _ & Hobj & _).
  rewrite Hobj. cbn [with_shapes shapes materials original_num_shapes].
  repeat split.
  destruct (palette_defined_for_all_sources rnd rnd' _ _ Hpal)
    as (palette' & Hpal').
  assert (Hpal2 : get_uniform_sampled_colors rnd'
                    (original_num_shapes (obj_ s')) = Some palette')
    by (rewrite Hobj; exact Hpal').
  assert (Hwf : Forall (well_formed_shape s' palette') (shapes (obj_ s')))
    by (rewrite Hobj; constructor).
  destruct (parse_scene_total rnd' s' palette' Hpal2 Hwf)
    as (s'' & printed' & Hok2).
  apply parse_scene_ok in Hok2 as Hfacts.
  destruct Hfacts
    as (pal2 & _ & _ & _ & Hme & (mds & Hma & Hmds) & Hlo & Hhi & Hp).
  rewrite Hobj in Hme, Hmds, Hlo, Hhi, Hp.
  cbn [with_shapes shapes map concat scene_vertices] in *.
  apply Forall2_nil_inv_l in Hmds as ->.
  exists s''. rewrite app_nil_r in Hme, Hma. subst printed'.
  repeat split; assumption.
Qed.

Lemma second_build_resets_box_witness :
  parse_scene sample_rand sample_scene = Ok (sample_built, sample_printed) /\
  shapes (obj_ sample_built) = [] /\
  materials (obj_ sample_built) = materials (obj_ sample_scene) /\
  original_num_shapes (obj_ sample_built)
  = original_num_shapes (obj_ sample_scene) /\
  exists s'',
    parse_scene (fun k => k) sample_built = Ok (s'', []) /\
    mesh_ s'' = mesh_ sample_built /\
    materials_ s'' = materials_ sample_built /\
    boxmin_ s'' = FVec3 FLT_MAX FLT_MAX FLT_MAX /\
    boxmax_ s'' = FVec3 FLT_LOWEST FLT_LOWEST FLT_LOWEST.
Proof.
  assert (H : parse_scene sample_rand sample_scene
              = Ok (sample_built, sample_printed))
    by (vm_compute; reflexivity).
  split; [exact H|].
  apply (second_build_resets_box sample_rand (fun k => k) sample_scene
           sample_built sample_printed H).
Defined.

(** ** Activation *)

(* The loop of [activate] from index [k] on. *)
Lemma activate_loop_spec n : forall k s,
  length (materials_ s) = length (mesh_ s) ->
  (k + n)%nat = length (mesh_ s) ->
  Z.of_nat (length (mesh_ s)) <= INT_MAX ->
  match activate_loop n (Z.of_nat k) s with
  | Ok s' =>
      same_tables s s' /\ mesh_ s' = mesh_ s /\
      boxmin_ s' = boxmin_ s /\ boxmax_ s' = boxmax_ s /\
      take k (materials_ s') = take k (materials_ s) /\
      Forall2 (activated s) (drop k (materials_ s)) (drop k (materials_ s'))
  | AssertionFailure => False
  | Undefined =>
      Exists (fun md => ~ points_at_material s md) (drop k (materials_ s))
  end.
Proof.
  induction n as [|n IH]; intros k s Hlen Hk Hmax; cbn [activate_loop].
  - split; [apply same_tables_refl|]. repeat split; try reflexivity.
    rewrite drop_ge by lia. constructor.
  - rewrite !vec_index_nat.
    destruct (lookup_lt_is_Some_2 (materials_ s) k ltac:(lia))
      as [material Hmat].
    destruct (lookup_lt_is_Some_2 (mesh_ s) k ltac:(lia)) as [me Hme].
    rewrite Hmat, Hme.
    rewrite (drop_S _ _ _ Hmat).
    destruct (vec_index (materials (obj_ s)) (m material)) as [mat|] eqn:Hptr.
    + unfold int_add.
      rewrite wrap_int_small by (unfold INT_MAX in *; lia).
      replace (Z.of_nat k + 1) with (Z.of_nat (S k)) by lia.
      rewrite Nat2Z.id.
      set (material' :=
             set_texture material (textures_get s (diffuse_texname mat))).
      set (s1 := with_build s (obj_ s) (mesh_ s)
                   (<[k:=material']> (materials_ s)) (boxmin_ s) (boxmax_ s)).
      specialize (IH (S k) s1).
      cbn [s1 with_build materials_ mesh_] in IH.
      rewrite length_insert in IH.
      specialize (IH Hlen ltac:(lia) Hmax).
      destruct (activate_loop n (Z.of_nat (S k)) s1) as [s'| |];
        [|exact IH|].
      * destruct IH as (Ht & Hmesh & Hlo & Hhi & Htake & Hdrop).
        assert (Hs1 : same_tables s s1) by (repeat split).
        split; [eapply same_tables_trans; eassumption|].
        split; [exact Hmesh|]. split; [exact Hlo|]. split; [exact Hhi|].
        assert (Hk' : materials_ s' !! k = Some material').
        { rewrite <- (lookup_take_lt (materials_ s') (S k) k) by lia.
          rewrite Htake, lookup_take_lt by lia.
          apply list_lookup_insert_eq. lia. }
        split.
        { apply (f_equal (take k)) in Htake.
          rewrite !take_take in Htake.
          replace (k `min` S k)%nat with k in Htake by lia.
          rewrite Htake. apply take_insert_ge. lia. }
        rewrite (drop_S _ _ _ Hk'). constructor.
        { exists mat. split; [assumption|reflexivity]. }
        rewrite drop_insert_lt in Hdrop by lia. exact Hdrop.
      * apply Exists_cons_tl. cbn [s1 with_build obj_] in IH.
        rewrite drop_insert_lt in IH by lia. exact IH.
    + apply Exists_cons_hd. unfold points_at_material. rewrite Hptr.
      intros [x Hx]. discriminate.
Qed.

Lemma activate_outcome s :
  length (materials_ s) = length (mesh_ s) ->
  Z.of_nat (length (mesh_ s)) <= INT_MAX ->
  match activate s with
  | Ok s' =>
      same_tables s s' /\ mesh_ s' = mesh_ s /\
      boxmin_ s' = boxmin_ s /\ boxmax_ s' = boxmax_ s /\
      Forall2 (activated s) (materials_ s) (materials_ s')
  | AssertionFailure => False
  | Undefined => Exists (fun md => ~ points_at_material s md) (materials_ s)
  end.
Proof.
  intros Hlen Hmax. unfold activate.
  rewrite !int_size_small by lia. rewrite Hlen, Z.eqb_refl. cbn [negb].
  rewrite Nat2Z.id.
  pose proof (activate_loop_spec (length (mesh_ s)) 0 s Hlen eq_refl Hmax)
    as Hloop.
  change (Z.of_nat 0) with 0 in Hloop.
  destruct (activate_loop (length (mesh_ s)) 0 s) as [s'| |];
    [|exact Hloop|exact Hloop].
  destruct Hloop as (Ht & Hme & Hlo & Hhi & _ & Hact).
  repeat split; try assumption; apply Ht.
Qed.

Lemma Forall2_Forall_iff {A B} (R : A -> B -> Prop) (P : A -> Prop)
    (Q : B -> Prop) l k :
  Forall2 R l k -> (forall x y, R x y -> (P x <-> Q y)) ->
  (Forall P l <-> Forall Q k).
Proof.
  intros HR Hpq. induction HR as [|x y l k Hxy _ IH].
  - split; constructor.
  - rewrite !Forall_cons, IH, (Hpq x y Hxy). reflexivity.
Qed.

(** X14. On a scene whose two tables have the same length, [activate]
    succeeds exactly when every descriptor's material pointer points into
    the loader's materials; otherwise a pointer outside the materials is
    dereferenced and the behaviour is not defined.  When it succeeds, every
    descriptor gets the texture registered under the texture name of its
    material and keeps its other fields; the meshes, the box and the tables
    stay as they were. *)
Theorem activate_sets_textures s :
  length (materials_ s) = length (mesh_ s) ->
  Z.of_nat (length (mesh_ s)) <= INT_MAX ->
  ((exists s', activate s = Ok s') <->
   Forall (points_at_material s) (materials_ s)) /\
  (~ Forall (points_at_material s) (materials_ s) ->
   activate s = Undefined) /\
  forall s',
    activate s = Ok s' ->
    Forall2 (activated s) (materials_ s) (materials_ s') /\
    mesh_ s' = mesh_ s /\
    boxmin_ s' = boxmin_ s /\ boxmax_ s' = boxmax_ s /\
    obj_ s' = obj_ s.
Proof.
  intros Hlen Hmax. pose proof (activate_outcome s Hlen Hmax) as Hout.
  destruct (activate s) as [s1| |]; [|destruct Hout|].
  - destruct Hout as (Ht & Hme & Hlo & Hhi & Hact).
    assert (Hall : Forall (points_at_material s) (materials_ s)).
    { clear -Hact. induction Hact as [|md md' l k (mat & Hm & _) _ IH];
        constructor; [|exact IH].
      unfold points_at_material. rewrite Hm. eexists; reflexivity. }
    split; [split; [intros _; exact Hall|intros _; eexists; reflexivity]|].
    split; [intros Hno; now destruct Hno|].
    intros s' [= <-]. repeat split; try assumption. apply Ht.
  - assert (Hnot : ~ Forall (points_at_material s) (materials_ s)).
    { intros Hall. apply Exists_exists in Hout as (md & Hin & Hbad).
      rewrite Forall_forall in Hall. apply Hbad, Hall.
      exact Hin. }
    split; [split; [intros [s' Hs']; discriminate
                   |intros Hall; now destruct Hnot]|].
    split; [reflexivity|]. intros s' Hs'. discriminate.
Qed.

Lemma parse_scene_reads rnd s s' printed :
  parse_scene rnd s = Ok (s', printed) ->
  name_from_mode_id s' = name_from_mode_id s /\
  get_color s' = get_color s /\
  textures_get s' = textures_get s /\
  background_color_ s' = background_color_ s /\
  minDepth_ s' = minDepth_ s.
Proof.
  unfold parse_scene. cbn [obj_ with_build].
  destruct (get_uniform_sampled_colors rnd (original_num_shapes (obj_ s)))
    as [palette|]; [|discriminate].
  unfold bind.
  match goal with |- context [parse_shapes ?p ?l (?s0, [])] =>
    destruct (parse_shapes p l (s0, [])) as [[s1 p1]| |] eqn:Hloop;
      [|discriminate|discriminate]
  end.
  intros [= <- <-].
  apply parse_shapes_ok in Hloop as (_ & (_ & Hn & Hg & Ht & Hb & Hm) & _).
  cbn in *. repeat split; assumption.
Qed.

Lemma parse_shape_assertion palette s printed shp :
  parse_shape palette (s, printed) shp = AssertionFailure ->
  fails_assertion shp.
Proof.
  unfold parse_shape, fails_assertion.
  destruct (get_color_by_shape_name s (name shp)) as [label msgs].
  destruct (vec_index palette (original_index shp)); [|discriminate].
  destruct (Z.eqb_spec (int_size (material_ids (mesh shp)))
              (int_size (num_face_vertices (mesh shp)))) as [Hsz|Hsz];
    [|now left].
  destruct (Z.ltb_spec 0 (int_size (num_face_vertices (mesh shp))))
    as [Hpos|Hpos]; [|now right].
  cbn [negb].
  destruct (vec_index (material_ids (mesh shp)) 0) as [mid0|];
    [|discriminate].
  destruct (vec_index (materials (obj_ s)) mid0); discriminate.
Qed.

(* When no shape fails an assertion but one has its first material id
   outside the materials, the loop leaves defined behaviour. *)
Lemma parse_shapes_material_undefined palette shps : forall s printed,
  Forall (fun shp => ~ fails_assertion shp) shps ->
  Exists (fun shp => ~ first_material_valid s shp) shps ->
  parse_shapes palette shps (s, printed) = Undefined.
Proof.
  induction shps as [|shp shps IH]; intros s printed Hpass Hex.
  - inversion Hex.
  - apply Forall_cons in Hpass as [Hshp Hrest]. cbn [parse_shapes].
    destruct (parse_shape palette (s, printed) shp) as [[s1 p1]| |] eqn:Hstep.
    + cbn [bind]. apply parse_shape_ok in Hstep as Hfacts.
      destruct Hfacts as ((_ & _ & _ & first & Hfirst & Hrange) & (Ho & _) & _).
      apply IH; [assumption|].
      inversion Hex as [? ? Hbad|? ? Hlater]; subst.
      * destruct Hbad. intros first' Hfirst'. congruence.
      * eapply Exists_impl; [exact Hlater|].
        intros shp'. unfold first_material_valid. now rewrite Ho.
    + apply parse_shape_assertion in Hstep. now destruct Hshp.
    + reflexivity.
Qed.

(** X15. A completed build can always be activated.  After a completed
    build from empty tables (of at most INT_MAX shapes), [activate]
    succeeds, and the descriptor of the shape at position [i] gets the
    texture registered under the texture name of the material of the
    shape's first face.  No material pointer can dangle then, because the
    build itself indexes the materials: on a scene whose shapes pass the
    palette lookup and both assertions, a shape whose first material id is
    not an index into the loader's materials (tinyobj's id -1 for faces
    without material) leaves the build without defined behaviour. *)
Theorem build_then_activate rnd s :
  mesh_ s = [] -> materials_ s = [] ->
  Z.of_nat (length (shapes (obj_ s))) <= INT_MAX ->
  (forall s1 printed,
     parse_scene rnd s = Ok (s1, printed) ->
     exists s2,
       activate s1 = Ok s2 /\
       forall i shape,
         shapes (obj_ s) !! i = Some shape ->
         exists md first mat,
           materials_ s2 !! i = Some md /\
           material_ids (mesh shape) !! 0%nat = Some first /\
           0 <= first /\
           materials (obj_ s) !! Z.to_nat first = Some mat /\
           mid md = first /\
           texture md = textures_get s (diffuse_texname mat)) /\
  (forall palette,
     get_uniform_sampled_colors rnd (original_num_shapes (obj_ s))
     = Some palette ->
     Forall (fun shape =>
               0 <= original_index shape < Z.of_nat (length palette) /\
               int_size (material_ids (mesh shape))
               = int_size (num_face_vertices (mesh shape)) /\
               0 < int_size (num_face_vertices (mesh shape)))
            (shapes (obj_ s)) ->
     (exists shape first,
        shape ∈ shapes (obj_ s) /\
        material_ids (mesh shape) !! 0%nat = Some first /\
        ~ 0 <= first < Z.of_nat (length (materials (obj_ s)))) ->
     parse_scene rnd s = Undefined).
Proof.
  intros Hmesh Hmats Hmax. split.
  - intros s1 printed Hok.
    pose proof (parse_scene_reads _ _ _ _ Hok) as (_ & _ & Htex & _).
    apply parse_scene_ok in Hok
      as (palette & _ & Hwf & Hobj & Hme & (mds & Hma & Hmds) & _).
    rewrite Hmesh in Hme. rewrite Hmats in Hma. cbn [app] in Hme, Hma.
    assert (Hl1 : length (materials_ s1) = length (mesh_ s1)).
    { rewrite Hme, Hma, length_map. symmetry.
      eapply Forall2_length; eassumption. }
    assert (Hl2 : Z.of_nat (length (mesh_ s1)) <= INT_MAX)
      by (rewrite Hme, length_map; exact Hmax).
    assert (Hmat1 : materials (obj_ s1) = materials (obj_ s))
      by (rewrite Hobj; reflexivity).
    assert (Hpoint : Forall (points_at_material s1) (materials_ s1)).
    { rewrite Hma. rewrite Forall_forall in Hwf.
      apply Forall_lookup_2. intros i md Hi.
      destruct (Forall2_lookup_r _ _ _ _ _ Hmds Hi) as (shape & Hs & Hdesc).
      destruct (Hwf shape) as (_ & _ & _ & first & Hfirst & Hrange);
        [now apply list_elem_of_lookup_2 in Hs|].
      destruct Hdesc as (Hmid & _ & _ & _ & Hm).
      change (vec_index (material_ids (mesh shape)) 0)
        with (material_ids (mesh shape) !! 0%nat) in Hmid.
      unfold points_at_material. rewrite Hmat1, Hm.
      apply vec_index_is_Some. congruence. }
    pose proof (activate_outcome s1 Hl1 Hl2) as Hout.
    destruct (activate s1) as [s2| |]; [|destruct Hout|].
    + destruct Hout as (_ & _ & _ & _ & Hact).
      exists s2. split; [reflexivity|].
      intros i shape Hi.
      destruct (Forall2_lookup_left _ _ _ _ _ Hmds Hi) as (md0 & Hmd0 & Hdesc).
      rewrite <- Hma in Hmd0.
      destruct (Forall2_lookup_left _ _ _ _ _ Hact Hmd0)
        as (md & Hmd & mat & Hmat & ->).
      destruct Hdesc as (Hmid & _ & _ & _ & Hm).
      rewrite Hmat1, Hm in Hmat. apply vec_index_Some in Hmat as [Hpos Hmat].
      exists (set_texture md0 (textures_get s1 (diffuse_texname mat))),
        (mid md0), mat.
      split; [exact Hmd|]. split; [exact Hmid|]. split; [exact Hpos|].
      split; [exact Hmat|]. split; [reflexivity|].
      cbn [texture set_texture]. now rewrite Htex.
    + exfalso. apply Exists_exists in Hout as (md & Hin & Hbad).
      rewrite Forall_forall in Hpoint. now apply Hbad, Hpoint.
  - intros palette Hpal Hpass (shape & first & Hin & Hfirst & Hout).
    unfold parse_scene. cbn [obj_ with_build]. rewrite Hpal.
    rewrite parse_shapes_material_undefined; [reflexivity| |].
    + eapply Forall_impl; [exact Hpass|].
      intros shp (_ & Hsz & Hpos) [Hne | Hle]; [congruence|lia].
    + apply Exists_exists. exists shape. split; [exact Hin|].
      intros Hvalid. apply Hout. now apply Hvalid.
Qed.

Lemma activate_sets_textures_witness :
  (length (materials_ sample_built) = length (mesh_ sample_built) /\
   Z.of_nat (length (mesh_ sample_built)) <= INT_MAX) /\
  ((exists s', activate sample_built = Ok s') <->
   Forall (points_at_material sample_built) (materials_ sample_built)) /\
  (~ Forall (points_at_material sample_built) (materials_ sample_built) ->
   activate sample_built = Undefined) /\
  forall s',
    activate sample_built = Ok s' ->
    Forall2 (activated sample_built)
            (materials_ sample_built) (materials_ s') /\
    mesh_ s' = mesh_ sample_built /\
    boxmin_ s' = boxmin_ sample_built /\
    boxmax_ s' = boxmax_ sample_built /\
    obj_ s' = obj_ sample_built.
Proof.
  assert (H1 : length (materials_ sample_built) = length (mesh_ sample_built))
    by (vm_compute; reflexivity).
  assert (H2 : Z.of_nat (length (mesh_ sample_built)) <= INT_MAX)
    by (vm_compute; discriminate).
  split; [split; [exact H1|exact H2]|].
  apply (activate_sets_textures sample_built H1 H2).
Defined.

Lemma build_then_activate_witness :
  (mesh_ sample_scene = [] /\ materials_ sample_scene = [] /\
   Z.of_nat (length (shapes (obj_ sample_scene))) <= INT_MAX) /\
  (forall s1 printed,
     parse_scene sample_rand sample_scene = Ok (s1, printed) ->
     exists s2,
       activate s1 = Ok s2 /\
       forall i shape,
         shapes (obj_ sample_scene) !! i = Some shape ->
         exists md first mat,
           materials_ s2 !! i = Some md /\
           material_ids (mesh shape) !! 0%nat = Some first /\
           0 <= first /\
           materials (obj_ sample_scene) !! Z.to_nat first = Some mat /\
           mid md = first /\
           texture md = textures_get sample_scene (diffuse_texname mat)) /\
  (forall palette,
     get_uniform_sampled_colors sample_rand
       (original_num_shapes (obj_ sample_scene)) = Some palette ->
     Forall (fun shape =>
               0 <= original_index shape < Z.of_nat (length palette) /\
               int_size (material_ids (mesh shape))
               = int_size (num_face_vertices (mesh shape)) /\
               0 < int_size (num_face_vertices (mesh shape)))
            (shapes (obj_ sample_scene)) ->
     (exists shape first,
        shape ∈ shapes (obj_ sample_scene) /\
        material_ids (mesh shape) !! 0%nat = Some first /\
        ~ 0 <= first < Z.of_nat (length (materials (obj_ sample_scene)))) ->
     parse_scene sample_rand sample_scene = Undefined).
Proof.
  assert (H : Z.of_nat (length (shapes (obj_ sample_scene))) <= INT_MAX)
    by (vm_compute; discriminate).
  split; [split; [reflexivity|split; [reflexivity|exact H]]|].
  apply (build_then_activate sample_rand sample_scene eq_refl eq_refl H).
Defined.

(* The scene with the material id -1 is not built; the sample scene is
   built and activated, and the textured scene gets its texture. *)
Example no_material_scene_build :
  parse_scene sample_rand no_material_scene = Undefined /\
  (exists s', activate sample_built = Ok s' /\
              texture <$> materials_ s' = [0; 0; 0]) /\
  texture <$> materials_ (activated_scene textured_scene) = [0; 7].
Proof.
  split; [vm_compute; reflexivity|].
  split; [|vm_compute; reflexivity].
  eexists. split; [vm_compute; reflexivity|reflexivity].
Qed.

(** ** Fragment shader: the other modes *)

Lemma InverseDepth_pos z :
  (z <= 1)%Q -> (1 # 100 <= SUNCGShader.InverseDepth z)%Q.
Proof. intros Hz. rewrite InverseDepth_linear. lra. Qed.

Lemma clamp_in_unit x : in_unit (SUNCGShader.clamp x 0 1).
Proof.
  unfold in_unit, SUNCGShader.clamp. split.
  - destruct (fmin_cases (fmax x 0) 1) as [-> | ->]; [|lra].
    apply fmax_ge_r.
  - apply fmin_le_r.
Qed.

Lemma unorm8_saturates c : (1 <= c)%Q -> unorm8 c = 255.
Proof.
  intros Hc. unfold unorm8.
  assert (Hhi : (SUNCGShader.clamp c 0 1 <= 1)%Q) by apply clamp_in_unit.
  assert (Hlo : (1 <= SUNCGShader.clamp c 0 1)%Q).
  { unfold SUNCGShader.clamp.
    destruct (fmin_cases (fmax c 0) 1) as [-> | ->]; [|lra].
    eapply Qle_trans; [exact Hc|apply fmax_ge_l]. }
  apply Qfloor_unique.
  - change (inject_Z 255) with 255%Q. lra.
  - change (inject_Z (255 + 1)) with 256%Q. lra.
Qed.

(** X16. In shading mode 3 a fragment with depth buffer value [d] in [0, 1]
    is colored with its true depth divided by 20 in all three channels and
    alpha 1.  The true depth is the reciprocal of the inverse depth, lies
    between NEAR and FAR, and grows with [d]; from a true depth of 20 on
    the 8-bit channel is saturated at 255, so farther fragments cannot be
    told apart. *)
Theorem depth_mode_output
    (normalize : vec3 -> vec3) (u : SUNCGShader.uniforms)
    (fr : SUNCGShader.fragment) :
  SUNCGShader.mode u = 3%N ->
  (0 <= SUNCGShader.FragCoord_z fr)%Q ->
  (SUNCGShader.FragCoord_z fr <= 1)%Q ->
  let depth := SUNCGShader.TrueDepth (SUNCGShader.FragCoord_z fr) in
  SUNCGShader.main normalize u fr
  = Some (Vec4 (depth / SUNCGShader.DEPTH_SCALE)
               (depth / SUNCGShader.DEPTH_SCALE)
               (depth / SUNCGShader.DEPTH_SCALE) 1)%Q /\
  (depth * SUNCGShader.InverseDepth (SUNCGShader.FragCoord_z fr) == 1)%Q /\
  (SUNCGShader.NEAR <= depth)%Q /\ (depth <= SUNCGShader.FAR)%Q /\
  (forall z', (SUNCGShader.FragCoord_z fr <= z')%Q -> (z' <= 1)%Q ->
              (depth <= SUNCGShader.TrueDepth z')%Q) /\
  ((SUNCGShader.DEPTH_SCALE <= depth)%Q ->
   chR (store_pixel (Vec4 (depth / SUNCGShader.DEPTH_SCALE)
                          (depth / SUNCGShader.DEPTH_SCALE)
                          (depth / SUNCGShader.DEPTH_SCALE) 1)%Q) = 255).
Proof.
  intros Hmode Hz0 Hz1 depth. set (z := SUNCGShader.FragCoord_z fr) in *.
  pose proof (InverseDepth_pos z Hz1) as Hinv.
  pose proof (InverseDepth_linear z) as Hlin.
  unfold depth, SUNCGShader.TrueDepth.
  set (inv := SUNCGShader.InverseDepth z) in *.
  split; [unfold SUNCGShader.main; rewrite Hmode; reflexivity|].
  split; [field; lra|].
  unfold SUNCGShader.NEAR, SUNCGShader.FAR, SUNCGShader.DEPTH_SCALE.
  split; [apply Qle_shift_div_l; lra|].
  split; [apply Qle_shift_div_r; lra|].
  split.
  - intros z' Hzz' Hz'1.
    pose proof (InverseDepth_pos z' Hz'1) as Hinv'.
    pose proof (InverseDepth_linear z') as Hlin'.
    set (inv' := SUNCGShader.InverseDepth z') in *.
    apply Qle_shift_div_l; [lra|].
    assert (He : (1 / inv * inv' == inv' / inv)%Q) by (field; lra).
    rewrite He. apply Qle_shift_div_r; lra.
  - intros Hfar. cbn [store_pixel chR v4x]. apply unorm8_saturates.
    apply Qle_shift_div_l; [reflexivity|]. lra.
Qed.

Lemma depth_mode_output_witness :
  (SUNCGShader.mode (shader_uniforms 3 (1 # 10)) = 3%N /\
   (0 <= SUNCGShader.FragCoord_z (fragment_at (1 # 2)))%Q /\
   (SUNCGShader.FragCoord_z (fragment_at (1 # 2)) <= 1)%Q) /\
  let depth :=
    SUNCGShader.TrueDepth (SUNCGShader.FragCoord_z (fragment_at (1 # 2))) in
  SUNCGShader.main (fun v => v) (shader_uniforms 3 (1 # 10))
    (fragment_at (1 # 2))
  = Some (Vec4 (depth / SUNCGShader.DEPTH_SCALE)
               (depth / SUNCGShader.DEPTH_SCALE)
               (depth / SUNCGShader.DEPTH_SCALE) 1)%Q /\
  (depth * SUNCGShader.InverseDepth
             (SUNCGShader.FragCoord_z (fragment_at (1 # 2))) == 1)%Q /\
  (SUNCGShader.NEAR <= depth)%Q /\ (depth <= SUNCGShader.FAR)%Q /\
  (forall z', (SUNCGShader.FragCoord_z (fragment_at (1 # 2)) <= z')%Q ->
              (z' <= 1)%Q -> (depth <= SUNCGShader.TrueDepth z')%Q) /\
  ((SUNCGShader.DEPTH_SCALE <= depth)%Q ->
   chR (store_pixel (Vec4 (depth / SUNCGShader.DEPTH_SCALE)
                          (depth / SUNCGShader.DEPTH_SCALE)
                          (depth / SUNCGShader.DEPTH_SCALE) 1)%Q) = 255).
Proof.
  assert (H2 : (0 <= SUNCGShader.FragCoord_z (fragment_at (1 # 2)))%Q)
    by (vm_compute; discriminate).
  assert (H3 : (SUNCGShader.FragCoord_z (fragment_at (1 # 2)) <= 1)%Q)
    by (vm_compute; discriminate).
  split; [split; [reflexivity|split; [exact H2|exact H3]]|].
  apply (depth_mode_output (fun v => v) (shader_uniforms 3 (1 # 10))
           (fragment_at (1 # 2)) eq_refl H2 H3).
Defined.



(** X18. The shader gives the fragment a color exactly for the modes 0 to
    4.  With any larger mode none of its branches assigns the color before
    it is read. *)
Theorem shader_defined_iff_known_mode
    (normalize : vec3 -> vec3) (u : SUNCGShader.uniforms)
    (fr : SUNCGShader.fragment) :
  SUNCGShader.main normalize u fr = None <-> (4 < SUNCGShader.mode u)%N.
Proof.
  unfold SUNCGShader.main.
  destruct (SUNCGShader.mode u) as [|[[[p|p|]|[p|p|]|]|[[p|p|]|[p|p|]|]|]];
    cbn; split; intros H; try discriminate; try lia; try reflexivity.
Qed.

(* The code that the pixel of a fragment in range holds. *)
(** ** Render orchestrator *)

Lemma draw_loop_spec body (g : nat -> list gl_call) n : forall a,
  (forall k, (a <= k < a + n)%nat -> body (Z.of_nat k) = Some (g k)) ->
  Z.of_nat (a + n) <= INT_MAX ->
  draw_loop body n (Z.of_nat a) = Some (concat (map g (seq a n))).
Proof.
  induction n as [|n IH]; intros a Hbody Hmax; cbn [draw_loop seq map concat].
  - reflexivity.
  - rewrite (Hbody a) by lia. unfold int_add.
    rewrite wrap_int_small by (unfold INT_MAX in *; lia).
    replace (Z.of_nat a + 1) with (Z.of_nat (S a)) by lia.
    rewrite IH; [reflexivity| |lia].
    intros k Hk. apply Hbody. lia.
Qed.

Lemma replay_app st a b :
  replay st (a ++ b) = replay st a ++ replay (foldl apply_call st a) b.
Proof.
  revert st. induction a as [|c a IH]; intros st; [reflexivity|].
  destruct c; cbn [app replay foldl apply_call]; rewrite IH; reflexivity.
Qed.

(* Blocks of calls with one draw call each: the draws come out in the order
   of the blocks, each with a state that its own block determines. *)
Lemma replay_blocks (P : nat -> uniform_state -> Prop)
    (g : nat -> list gl_call) (bound : nat) :
  (forall k st, (k < bound)%nat ->
     exists st', replay st (g k) = [(Z.of_nat k, st')] /\ P k st') ->
  forall n a st, (a + n <= bound)%nat ->
    Forall2 (fun k (e : Z * uniform_state) => e.1 = Z.of_nat k /\ P k e.2)
            (seq a n) (replay st (concat (map g (seq a n)))).
Proof.
  intros Hblock. induction n as [|n IH]; intros a st Hle;
    cbn [seq map concat]; [constructor|].
  rewrite replay_app.
  destruct (Hblock a st ltac:(lia)) as (st' & -> & HP).
  cbn [app]. constructor; [split; [reflexivity|exact HP]|].
  apply IH. lia.
Qed.

Lemma flat_body_calls s (semantic : bool) k md me :
  materials_ s !! k = Some md -> mesh_ s !! k = Some me ->
  draw_flat_body s semantic (Z.of_nat k)
  = Some [ glUniform3fv Kd_loc
             (if semantic then label_color md else instance_color md);
           glUniform1ui mode_loc 2;
           mesh_draw (Z.of_nat k) ].
Proof.
  intros Hmd Hme. unfold draw_flat_body.
  rewrite !vec_index_nat, Hmd, Hme. reflexivity.
Qed.

(* The calls of the flat modes for the mesh at [k]. *)
Lemma draw_flat_outcome s (semantic : bool) :
  length (materials_ s) = length (mesh_ s) ->
  Z.of_nat (length (mesh_ s)) <= INT_MAX ->
  exists calls,
    draw s (if semantic then SEMANTIC else INSTANCE) = Drawn calls /\
    forall st,
      Forall2 (fun k (e : Z * uniform_state) =>
                 e.1 = Z.of_nat k /\
                 exists md, materials_ s !! k = Some md /\
                   us_mode e.2 = 2%N /\
                   us_Kd e.2
                   = if semantic then label_color md else instance_color md)
              (seq 0 (length (mesh_ s))) (replay st calls).
Proof.
  intros Hlen Hmax.
  set (g := fun k : nat =>
              match materials_ s !! k with
              | Some md =>
                  [ glUniform3fv Kd_loc
                      (if semantic then label_color md
                       else instance_color md);
                    glUniform1ui mode_loc 2;
                    mesh_draw (Z.of_nat k) ]
              | None => []
              end).
  assert (Hloop : draw_loop (draw_flat_body s semantic)
                    (length (mesh_ s)) 0
                  = Some (concat (map g (seq 0 (length (mesh_ s)))))).
  { apply (draw_loop_spec _ g (length (mesh_ s)) 0); [|exact Hmax].
    intros k Hk.
    destruct (lookup_lt_is_Some_2 (materials_ s) k ltac:(lia)) as [md Hmd].
    destruct (lookup_lt_is_Some_2 (mesh_ s) k ltac:(lia)) as [me Hme].
    rewrite (flat_body_calls s semantic k md me Hmd Hme).
    unfold g. now rewrite Hmd. }
  eexists. split.
  { unfold draw. rewrite int_size_small by exact Hmax. rewrite Nat2Z.id.
    destruct semantic; rewrite Hloop; reflexivity. }
  intros st. cbn [app]. cbn [replay apply_call].
  apply (replay_blocks
           (fun k st' =>
              exists md, materials_ s !! k = Some md /\
                us_mode st' = 2%N /\
                us_Kd st'
                = if semantic then label_color md else instance_color md)
           g (length (mesh_ s))); [|lia].
  intros k st0 Hk.
  destruct (lookup_lt_is_Some_2 (materials_ s) k ltac:(lia)) as [md Hmd].
  unfold g. rewrite Hmd. cbn [replay apply_call].
  eexists. split; [reflexivity|].
  exists md. cbn [snd us_mode us_Kd]. repeat split.
Qed.

(** X21. In SEMANTIC and INSTANCE mode, on a scene whose two tables have
    the same length, [draw] draws every mesh once, in the order of the
    table; the draw call of mesh [i] sees shading mode 2 and, as flat color,
    the label color (SEMANTIC) or the instance color (INSTANCE) of
    descriptor [i].  So the shader colors every fragment of mesh [i] with
    exactly that color and alpha 1, whatever uniforms earlier frames
    left. *)
Theorem flat_modes_draw_flat_colors s (semantic : bool) :
  length (materials_ s) = length (mesh_ s) ->
  Z.of_nat (length (mesh_ s)) <= INT_MAX ->
  exists calls,
    draw s (if semantic then SEMANTIC else INSTANCE) = Drawn calls /\
    forall st,
      length (replay st calls) = length (mesh_ s) /\
      forall i md,
        materials_ s !! i = Some md ->
        exists st',
          replay st calls !! i = Some (Z.of_nat i, st') /\
          us_mode st' = 2%N /\
          us_Kd st'
          = (if semantic then label_color md else instance_color md) /\
          forall normalize eye image fr,
            shade normalize eye image st' fr
            = Some (SUNCGShader.vec4_of
                      (if semantic then label_color md
                       else instance_color md) 1).
Proof.
  intros Hlen Hmax.
  destruct (draw_flat_outcome s semantic Hlen Hmax) as (calls & Hdraw & Hrep).
  exists calls. split; [exact Hdraw|].
  intros st. specialize (Hrep st).
  split.
  { apply Forall2_length in Hrep. now rewrite length_seq in Hrep. }
  intros i md Hmd.
  assert (Hi : (i < length (mesh_ s))%nat)
    by (rewrite <- Hlen; eapply lookup_lt_Some; eassumption).
  destruct (Forall2_lookup_left _ _ _ i i Hrep (lookup_seq_lt _ _ _ Hi))
    as ([j st'] & He & Hj & md' & Hmd' & Hmode & HKd).
  cbn [fst snd] in *. subst j. rewrite Hmd in Hmd'. injection Hmd' as <-.
  exists st'. split; [exact He|]. split; [exact Hmode|]. split; [exact HKd|].
  intros normalize eye image fr. unfold shade, SUNCGShader.main.
  cbn [SUNCGShader.mode SUNCGShader.Kd]. rewrite Hmode, HKd. reflexivity.
Qed.

Lemma draw_loop_none body n : forall a,
  (exists k, (a <= k < a + n)%nat /\ body (Z.of_nat k) = None) ->
  Z.of_nat (a + n) <= INT_MAX ->
  draw_loop body n (Z.of_nat a) = None.
Proof.
  induction n as [|n IH]; intros a (k & Hk & Hnone) Hmax; [lia|].
  cbn [draw_loop].
  destruct (body (Z.of_nat a)) as [calls|] eqn:Ha; [|reflexivity].
  unfold int_add. rewrite wrap_int_small by (unfold INT_MAX in *; lia).
  replace (Z.of_nat a + 1) with (Z.of_nat (S a)) by lia.
  rewrite IH; [reflexivity| |lia].
  exists k. split; [|exact Hnone].
  destruct (Nat.eq_dec k a) as [->|]; [congruence|lia].
Qed.


Lemma draw_plain_loop s :
  Z.of_nat (length (mesh_ s)) <= INT_MAX ->
  draw_loop (draw_plain_body s) (length (mesh_ s)) 0
  = Some (concat (map (fun k => [mesh_draw (Z.of_nat k)])
                      (seq 0 (length (mesh_ s))))).
Proof.
  intros Hmax.
  apply (draw_loop_spec _ (fun k => [mesh_draw (Z.of_nat k)])
           (length (mesh_ s)) 0); [|exact Hmax].
  intros k Hk. unfold draw_plain_body. rewrite vec_index_nat.
  destruct (lookup_lt_is_Some_2 (mesh_ s) k ltac:(lia)) as [me ->].
  reflexivity.
Qed.

(** X22. What [draw] does when it cannot draw.  With a mode outside the
    five known ones it throws "unknown render mode", after it has cleared
    the frame to the background color and before any mesh is drawn.  With
    fewer descriptors than meshes the modes that read a descriptor per mesh
    (RGB, SEMANTIC, INSTANCE) index the descriptor table past its end: their
    behaviour is not defined, which is what the assertion of [activate]
    guards against.  DEPTH and INVDEPTH read no descriptor and draw all the
    same. *)
Theorem draw_failures s :
  Z.of_nat (length (mesh_ s)) <= INT_MAX ->
  (forall code,
     draw s (OtherMode code)
     = Thrown [ glClearColor (v3x (background_color_ s))
                  (v3y (background_color_ s)) (v3z (background_color_ s)) 1;
                glClear ]
              "unknown render mode") /\
  ((length (materials_ s) < length (mesh_ s))%nat ->
   draw s RGB = DrawUndefined /\
   draw s SEMANTIC = DrawUndefined /\
   draw s INSTANCE = DrawUndefined) /\
  (exists calls, draw s DEPTH = Drawn calls) /\
  (exists calls, draw s INVDEPTH = Drawn calls).
Proof.
  intros Hmax. split; [reflexivity|]. split.
  - intros Hshort.
    assert (Hk : materials_ s !! length (materials_ s) = None)
      by (apply lookup_ge_None; lia).
    unfold draw. rewrite int_size_small by exact Hmax. rewrite Nat2Z.id.
    repeat split;
      (rewrite (draw_loop_none _ (length (mesh_ s)) 0);
       [reflexivity| |exact Hmax]);
      exists (length (materials_ s)); (split; [lia|]);
      unfold draw_rgb_body, draw_flat_body;
      rewrite !vec_index_nat, Hk; reflexivity.
  - unfold draw. rewrite int_size_small by exact Hmax. rewrite Nat2Z.id.
    rewrite (draw_plain_loop s Hmax). split; eexists; reflexivity.
Qed.

Lemma draw_failures_witness :
  Z.of_nat (length (mesh_ sample_built)) <= INT_MAX /\
  (forall code,
     draw sample_built (OtherMode code)
     = Thrown [ glClearColor (v3x (background_color_ sample_built))
                  (v3y (background_color_ sample_built))
                  (v3z (background_color_ sample_built)) 1;
                glClear ]
              "unknown render mode") /\
  ((length (materials_ sample_built) < length (mesh_ sample_built))%nat ->
   draw sample_built RGB = DrawUndefined /\
   draw sample_built SEMANTIC = DrawUndefined /\
   draw sample_built INSTANCE = DrawUndefined) /\
  (exists calls, draw sample_built DEPTH = Drawn calls) /\
  (exists calls, draw sample_built INVDEPTH = Drawn calls).
Proof.
  assert (H : Z.of_nat (length (mesh_ sample_built)) <= INT_MAX)
    by (vm_compute; discriminate).
  split; [exact H|].
  apply (draw_failures sample_built H).
Defined.



Lemma flat_modes_draw_flat_colors_witness :
  (length (materials_ sample_built) = length (mesh_ sample_built) /\
   Z.of_nat (length (mesh_ sample_built)) <= INT_MAX) /\
  exists calls,
    draw sample_built (if true then SEMANTIC else INSTANCE) = Drawn calls /\
    forall st,
      length (replay st calls) = length (mesh_ sample_built) /\
      forall i md,
        materials_ sample_built !! i = Some md ->
        exists st',
          replay st calls !! i = Some (Z.of_nat i, st') /\
          us_mode st' = 2%N /\
          us_Kd st'
          = (if true then label_color md else instance_color md) /\
          forall normalize eye image fr,
            shade normalize eye image st' fr
            = Some (SUNCGShader.vec4_of
                      (if true then label_color md
                       else instance_color md) 1).
Proof.
  assert (H1 : length (materials_ sample_built) = length (mesh_ sample_built))
    by (vm_compute; reflexivity).
  assert (H2 : Z.of_nat (length (mesh_ sample_built)) <= INT_MAX)
    by (vm_compute; discriminate).
  split; [split; [exact H1|exact H2]|].
  apply (flat_modes_draw_flat_colors sample_built true H1 H2).
Defined.

(* The semantic frame of the sample scene: chair, ground, wall. *)
Example sample_semantic_frame :
  draw sample_built SEMANTIC
  = Drawn [ glClearColor 0 0 0 1; glClear;
            glUniform3fv Kd_loc (Vec3 0 0 1); glUniform1ui mode_loc 2;
            mesh_draw 0;
            glUniform3fv Kd_loc (Vec3 0 1 0); glUniform1ui mode_loc 2;
            mesh_draw 1;
            glUniform3fv Kd_loc (Vec3 1 0 0); glUniform1ui mode_loc 2;
            mesh_draw 2 ].
Proof. vm_compute. reflexivity. Qed.

Lemma rgb_body_calls s k md me mat :
  materials_ s !! k = Some md -> mesh_ s !! k = Some me ->
  vec_index (materials (obj_ s)) (m md) = Some mat ->
  draw_rgb_body s (Z.of_nat k)
  = Some ([ glUniform3fv Kd_loc (diffuse mat);
            glUniform3fv Ka_loc (ambient mat);
            glUniform1f dissolve_loc (dissolve mat) ] ++
          (if texture md =? 0 then []
           else [ glActiveTexture 0; glUniform1i texture_loc 0 ]) ++
          [ glUniform1ui mode_loc (if texture md =? 0 then 1%N else 0%N);
            TextureGuard_enter (texture md);
            mesh_draw (Z.of_nat k);
            TextureGuard_leave (texture md) ]).
Proof.
  intros Hmd Hme Hmat. unfold draw_rgb_body.
  rewrite !vec_index_nat, Hmd, Hme, Hmat.
  destruct (texture md =? 0); reflexivity.
Qed.

(** X24. In RGB mode, on a scene whose two tables have the same length and
    whose descriptors all point at a material, [draw] draws every mesh
    once, in order, and the draw call of mesh [i] sees the diffuse color,
    the ambient color and the dissolve of the material of descriptor [i].
    It sees shading mode 0 (texture and lighting) with sampler unit 0 when
    the descriptor has a texture, and mode 1 (lighting only) when its
    texture is 0: a material without texture is drawn untextured. *)
Theorem rgb_mode_draws_materials s :
  length (materials_ s) = length (mesh_ s) ->
  Z.of_nat (length (mesh_ s)) <= INT_MAX ->
  Forall (points_at_material s) (materials_ s) ->
  exists calls,
    draw s RGB = Drawn calls /\
    forall st,
      length (replay st calls) = length (mesh_ s) /\
      forall i md,
        materials_ s !! i = Some md ->
        exists st' mat,
          replay st calls !! i = Some (Z.of_nat i, st') /\
          vec_index (materials (obj_ s)) (m md) = Some mat /\
          us_Kd st' = diffuse mat /\ us_Ka st' = ambient mat /\
          us_dissolve st' = dissolve mat /\
          us_mode st' = (if texture md =? 0 then 1%N else 0%N) /\
          (texture md <> 0 -> us_texture st' = 0).
Proof.
  intros Hlen Hmax Hptr. rewrite Forall_lookup in Hptr.
  set (g := fun k : nat =>
     match materials_ s !! k with
     | Some md =>
         match vec_index (materials (obj_ s)) (m md) with
         | Some mat =>
             [ glUniform3fv Kd_loc (diffuse mat);
               glUniform3fv Ka_loc (ambient mat);
               glUniform1f dissolve_loc (dissolve mat) ] ++
             (if texture md =? 0 then []
              else [ glActiveTexture 0; glUniform1i texture_loc 0 ]) ++
             [ glUniform1ui mode_loc (if texture md =? 0 then 1%N else 0%N);
               TextureGuard_enter (texture md);
               mesh_draw (Z.of_nat k);
               TextureGuard_leave (texture md) ]
         | None => []
         end
     | None => []
     end).
  assert (Hloop : draw_loop (draw_rgb_body s) (length (mesh_ s)) 0
                  = Some (concat (map g (seq 0 (length (mesh_ s)))))).
  { apply (draw_loop_spec _ g (length (mesh_ s)) 0); [|exact Hmax].
    intros k Hk.
    destruct (lookup_lt_is_Some_2 (materials_ s) k ltac:(lia)) as [md Hmd].
    destruct (lookup_lt_is_Some_2 (mesh_ s) k ltac:(lia)) as [me Hme].
    destruct (Hptr k md Hmd) as [mat Hmat].
    rewrite (rgb_body_calls s k md me mat Hmd Hme Hmat).
    unfold g. now rewrite Hmd, Hmat. }
  eexists. split.
  { unfold draw. rewrite int_size_small by exact Hmax. rewrite Nat2Z.id.
    rewrite Hloop. reflexivity. }
  intros st. cbn [app]. cbn [replay apply_call].
  assert (Hrep : Forall2
    (fun k (e : Z * uniform_state) =>
       e.1 = Z.of_nat k /\
       exists md mat, materials_ s !! k = Some md /\
         vec_index (materials (obj_ s)) (m md) = Some mat /\
         us_Kd e.2 = diffuse mat /\ us_Ka e.2 = ambient mat /\
         us_dissolve e.2 = dissolve mat /\
         us_mode e.2 = (if texture md =? 0 then 1%N else 0%N) /\
         (texture md <> 0 -> us_texture e.2 = 0))
    (seq 0 (length (mesh_ s)))
    (replay st (concat (map g (seq 0 (length (mesh_ s))))))).
  { apply (replay_blocks
      (fun k st' =>
         exists md mat, materials_ s !! k = Some md /\
           vec_index (materials (obj_ s)) (m md) = Some mat /\
           us_Kd st' = diffuse mat /\ us_Ka st' = ambient mat /\
           us_dissolve st' = dissolve mat /\
           us_mode st' = (if texture md =? 0 then 1%N else 0%N) /\
           (texture md <> 0 -> us_texture st' = 0))
      g (length (mesh_ s))); [|lia].
    intros k st0 Hk.
    destruct (lookup_lt_is_Some_2 (materials_ s) k ltac:(lia)) as [md Hmd].
    destruct (Hptr k md Hmd) as [mat Hmat].
    unfold g. rewrite Hmd, Hmat.
    destruct (texture md =? 0) eqn:Htex;
      cbn [app replay apply_call]; eexists; (split; [reflexivity|]);
      exists md, mat; rewrite Htex;
      cbn [us_Kd us_Ka us_dissolve us_mode us_texture];
      repeat split; try assumption.
    intros Hne. apply Z.eqb_eq in Htex. contradiction. }
  split.
  { apply Forall2_length in Hrep. now rewrite length_seq in Hrep. }
  intros i md Hmd.
  assert (Hi : (i < length (mesh_ s))%nat)
    by (rewrite <- Hlen; eapply lookup_lt_Some; eassumption).
  destruct (Forall2_lookup_left _ _ _ i i Hrep (lookup_seq_lt _ _ _ Hi))
    as ([j st'] & He & Hj & md' & mat & Hmd' & Hfacts).
  cbn [fst snd] in *. subst j. rewrite Hmd in Hmd'. injection Hmd' as <-.
  exists st', mat. split; [exact He|exact Hfacts].
Qed.

Lemma rgb_mode_draws_materials_witness :
  (length (materials_ (activated_scene textured_scene))
   = length (mesh_ (activated_scene textured_scene)) /\
   Z.of_nat (length (mesh_ (activated_scene textured_scene))) <= INT_MAX /\
   Forall (points_at_material (activated_scene textured_scene))
          (materials_ (activated_scene textured_scene))) /\
  exists calls,
    draw (activated_scene textured_scene) RGB = Drawn calls /\
    forall st,
      length (replay st calls)
      = length (mesh_ (activated_scene textured_scene)) /\
      forall i md,
        materials_ (activated_scene textured_scene) !! i = Some md ->
        exists st' mat,
          replay st calls !! i = Some (Z.of_nat i, st') /\
          vec_index (materials (obj_ (activated_scene textured_scene)))
                    (m md) = Some mat /\
          us_Kd st' = diffuse mat /\ us_Ka st' = ambient mat /\
          us_dissolve st' = dissolve mat /\
          us_mode st' = (if texture md =? 0 then 1%N else 0%N) /\
          (texture md <> 0 -> us_texture st' = 0).
Proof.
  assert (H1 : length (materials_ (activated_scene textured_scene))
               = length (mesh_ (activated_scene textured_scene)))
    by (vm_compute; reflexivity).
  assert (H2 : Z.of_nat (length (mesh_ (activated_scene textured_scene)))
               <= INT_MAX) by (vm_compute; discriminate).
  assert (H3 : Forall (points_at_material (activated_scene textured_scene))
                      (materials_ (activated_scene textured_scene))).
  { repeat constructor; eexists; vm_compute; reflexivity. }
  split; [split; [exact H1|split; [exact H2|exact H3]]|].
  apply (rgb_mode_draws_materials (activated_scene textured_scene) H1 H2 H3).
Defined.

(* The RGB frame of the textured scene: the wall without texture in mode 1,
   the door with texture 7 in mode 0. *)
Example textured_rgb_frame :
  draw (activated_scene textured_scene) RGB
  = Drawn [ glClearColor 0 0 0 1; glClear;
            glUniform3fv Kd_loc (Vec3 1 1 1);
            glUniform3fv Ka_loc (Vec3 0 0 0);
            glUniform1f dissolve_loc 1;
            glUniform1ui mode_loc 1;
            TextureGuard_enter 0; mesh_draw 0; TextureGuard_leave 0;
            glUniform3fv Kd_loc (Vec3 (1 # 2) (1 # 4) 0);
            glUniform3fv Ka_loc (Vec3 1 1 1);
            glUniform1f dissolve_loc (1 # 2);
            glActiveTexture 0; glUniform1i texture_loc 0;
            glUniform1ui mode_loc 0;
            TextureGuard_enter 7; mesh_draw 1; TextureGuard_leave 7 ].
Proof. vm_compute. reflexivity. Qed.

Lemma activated_keeps_colors s md md' :
  activated s md md' ->
  label_color md' = label_color md /\
  instance_color md' = instance_color md /\ mid md' = mid md.
Proof. intros (mat & _ & ->). repeat split. Qed.

(** X25. From the scene description to the pixels.  When the build
    completes from empty tables and the activation succeeds, a SEMANTIC
    frame colors every fragment of the mesh at position [i] with the color
    that the resolver gives to the name of the shape at position [i], and
    an INSTANCE frame colors it with the palette entry at that shape's
    original index; both with alpha 1 and without any lighting. *)
Theorem frames_show_shape_colors rnd s s1 printed s2 :
  parse_scene rnd s = Ok (s1, printed) ->
  mesh_ s = [] -> materials_ s = [] ->
  Z.of_nat (length (shapes (obj_ s))) <= INT_MAX ->
  activate s1 = Ok s2 ->
  exists semantic_calls instance_calls palette,
    draw s2 SEMANTIC = Drawn semantic_calls /\
    draw s2 INSTANCE = Drawn instance_calls /\
    get_uniform_sampled_colors rnd (original_num_shapes (obj_ s))
    = Some palette /\
    forall st i shape,
      shapes (obj_ s) !! i = Some shape ->
      exists st_sem st_ins color,
        replay st semantic_calls !! i = Some (Z.of_nat i, st_sem) /\
        replay st instance_calls !! i = Some (Z.of_nat i, st_ins) /\
        vec_index palette (original_index shape) = Some color /\
        forall normalize eye image fr,
          shade normalize eye image st_sem fr
          = Some (SUNCGShader.vec4_of
                    (fst (get_color_by_shape_name s (name shape))) 1) /\
          shade normalize eye image st_ins fr
          = Some (SUNCGShader.vec4_of color 1).
Proof.
  intros Hok Hmesh Hmats Hmax Hact.
  apply parse_scene_ok in Hok
    as (palette & Hpal & _ & _ & Hme & (mds & Hma & Hmds) & _).
  rewrite Hmesh in Hme. rewrite Hmats in Hma. cbn [app] in Hme, Hma.
  assert (Hl1 : length (materials_ s1) = length (mesh_ s1)).
  { rewrite Hme, Hma, length_map. symmetry.
    eapply Forall2_length; eassumption. }
  assert (Hl2 : Z.of_nat (length (mesh_ s1)) <= INT_MAX)
    by (rewrite Hme, length_map; exact Hmax).
  pose proof (activate_outcome s1 Hl1 Hl2) as Hout. rewrite Hact in Hout.
  destruct Hout as (_ & Hme2 & _ & _ & Hact2).
  assert (Hl3 : length (materials_ s2) = length (mesh_ s2)).
  { rewrite Hme2, <- Hl1. symmetry. eapply Forall2_length; eassumption. }
  assert (Hl4 : Z.of_nat (length (mesh_ s2)) <= INT_MAX)
    by (rewrite Hme2; exact Hl2).
  destruct (draw_flat_outcome s2 true Hl3 Hl4) as (csem & Hdsem & Hrsem).
  destruct (draw_flat_outcome s2 false Hl3 Hl4) as (cins & Hdins & Hrins).
  exists csem, cins, palette.
  split; [exact Hdsem|]. split; [exact Hdins|]. split; [exact Hpal|].
  intros st i shape Hi.
  destruct (Forall2_lookup_left _ _ _ _ _ Hmds Hi) as (md & Hmd & Hdesc).
  rewrite <- Hma in Hmd.
  destruct (Forall2_lookup_left _ _ _ _ _ Hact2 Hmd) as (md' & Hmd' & Hkeep).
  apply activated_keeps_colors in Hkeep as (Hlab & Hins & _).
  assert (Hlt : (i < length (mesh_ s2))%nat)
    by (rewrite <- Hl3; eapply lookup_lt_Some; eassumption).
  destruct (Forall2_lookup_left _ _ _ i i (Hrsem st) (lookup_seq_lt _ _ _ Hlt))
    as ([j1 st1] & He1 & Hj1 & m1 & Hm1 & Hmode1 & HKd1).
  destruct (Forall2_lookup_left _ _ _ i i (Hrins st) (lookup_seq_lt _ _ _ Hlt))
    as ([j2 st2] & He2 & Hj2 & m2 & Hm2 & Hmode2 & HKd2).
  cbn [fst snd] in *. subst j1 j2.
  rewrite Hmd' in Hm1, Hm2. injection Hm1 as <-. injection Hm2 as <-.
  destruct Hdesc as (_ & Hlabel & Hinst & _).
  exists st1, st2, (instance_color md).
  split; [exact He1|]. split; [exact He2|]. split; [exact Hinst|].
  intros normalize eye image fr. unfold shade, SUNCGShader.main.
  cbn [SUNCGShader.mode SUNCGShader.Kd].
  rewrite Hmode1, Hmode2, HKd1, HKd2, Hlab, Hins, Hlabel.
  split; reflexivity.
Qed.

Lemma frames_show_shape_colors_witness :
  (parse_scene sample_rand sample_scene = Ok (sample_built, sample_printed) /\
   mesh_ sample_scene = [] /\ materials_ sample_scene = [] /\
   Z.of_nat (length (shapes (obj_ sample_scene))) <= INT_MAX /\
   activate sample_built = Ok (activated_scene sample_scene)) /\
  exists semantic_calls instance_calls palette,
    draw (activated_scene sample_scene) SEMANTIC = Drawn semantic_calls /\
    draw (activated_scene sample_scene) INSTANCE = Drawn instance_calls /\
    get_uniform_sampled_colors sample_rand
      (original_num_shapes (obj_ sample_scene)) = Some palette /\
    forall st i shape,
      shapes (obj_ sample_scene) !! i = Some shape ->
      exists st_sem st_ins color,
        replay st semantic_calls !! i = Some (Z.of_nat i, st_sem) /\
        replay st instance_calls !! i = Some (Z.of_nat i, st_ins) /\
        vec_index palette (original_index shape) = Some color /\
        forall normalize eye image fr,
          shade normalize eye image st_sem fr
          = Some (SUNCGShader.vec4_of
                    (fst (get_color_by_shape_name sample_scene (name shape)))
                    1) /\
          shade normalize eye image st_ins fr
          = Some (SUNCGShader.vec4_of color 1).
Proof.
  assert (H1 : parse_scene sample_rand sample_scene
               = Ok (sample_built, sample_printed))
    by (vm_compute; reflexivity).
  assert (H2 : Z.of_nat (length (shapes (obj_ sample_scene))) <= INT_MAX)
    by (vm_compute; discriminate).
  assert (H3 : activate sample_built = Ok (activated_scene sample_scene))
    by (vm_compute; reflexivity).
  split; [split; [exact H1|split; [reflexivity|split;
            [reflexivity|split; [exact H2|exact H3]]]]|].
  apply (frames_show_shape_colors sample_rand sample_scene sample_built
           sample_printed (activated_scene sample_scene)
           H1 eq_refl eq_refl H2 H3).
Defined.

(** ** The box of a filtered scene *)

Lemma filtered_vertices_retained fs file s v :
  v ∈ scene_vertices (obj_ (filter_models fs file s).1)
        (shapes (obj_ (filter_models fs file s).1)) ->
  v ∈ scene_vertices (obj_ s) (shapes (obj_ s)).
Proof.
  unfold filter_models. destruct (fs file) as [lines|]; [|trivial].
  cbn [fst obj_ with_build with_shapes shapes].
  unfold scene_vertices, face_vertices. cbn [convertFace].
  intros Hin. apply list_elem_of_In, in_concat in Hin as (vs & Hvs & Hv).
  apply in_map_iff in Hvs as (shape & <- & Hshape).
  apply list_elem_of_In, list_elem_of_filter in Hshape as [_ Hshape].
  apply list_elem_of_In, in_concat. eexists. split; [|exact Hv].
  apply in_map_iff. exists shape.
  split; [reflexivity|now apply list_elem_of_In].
Qed.

(** X26. Filtering can only shrink the bounding box: when the scene and the
    filtered scene are both built, and the filtered scene keeps at least one
    vertex (with finite coordinates), its box lies inside the box of the
    unfiltered scene, coordinate by coordinate. *)
Theorem filtering_shrinks_box rnd fs file s s1 p1 s2 p2 :
  parse_scene rnd s = Ok (s1, p1) ->
  parse_scene rnd (filter_models fs file s).1 = Ok (s2, p2) ->
  scene_vertices (obj_ (filter_models fs file s).1)
    (shapes (obj_ (filter_models fs file s).1)) <> [] ->
  Forall finite_pos
    (scene_vertices (obj_ (filter_models fs file s).1)
       (shapes (obj_ (filter_models fs file s).1))) ->
  vec3_le (boxmin_ s1) (boxmin_ s2) /\ vec3_le (boxmax_ s2) (boxmax_ s1).
Proof.
  intros Hok1 Hok2 Hne Hfin.
  apply parse_scene_ok in Hok1
    as (pal1 & _ & _ & _ & _ & _ & Hlo1 & Hhi1 & _).
  apply parse_scene_ok in Hok2
    as (pal2 & _ & _ & _ & _ & _ & Hlo2 & Hhi2 & _).
  pose proof (filtered_vertices_retained fs file s) as Hsub.
  set (vsF := scene_vertices (obj_ (filter_models fs file s).1)
                (shapes (obj_ (filter_models fs file s).1))) in *.
  set (vs := scene_vertices (obj_ s) (shapes (obj_ s))) in *.
  rewrite Forall_forall in Hfin.
  rewrite Hlo1, Hhi1, Hlo2, Hhi2.
  assert (Haxis : forall a,
    fle (coord a (foldl vec3_min (FVec3 FLT_MAX FLT_MAX FLT_MAX) (pos <$> vs)))
        (coord a (foldl vec3_min (FVec3 FLT_MAX FLT_MAX FLT_MAX)
                    (pos <$> vsF))) /\
    fle (coord a (foldl vec3_max (FVec3 FLT_LOWEST FLT_LOWEST FLT_LOWEST)
                    (pos <$> vsF)))
        (coord a (foldl vec3_max (FVec3 FLT_LOWEST FLT_LOWEST FLT_LOWEST)
                    (pos <$> vs)))).
  { intros a.
    assert (Hbound : forall v, v ∈ vsF -> finite (coord a (pos v)))
      by (intros v Hv; apply finite_pos_coord, Hfin, Hv).
    assert (Hnum : forall v, v ∈ vsF -> is_number (coord a (pos v))).
    { intros v Hv. destruct (Hbound v Hv) as [_ Hle].
      apply (fle_is_number _ _ Hle). }
    split.
    - destruct (box_min_attained a vsF (FVec3 FLT_MAX FLT_MAX FLT_MAX) Hne)
        as (v & Hv & Heq).
      { intros v Hv. destruct (Hbound v Hv) as [_ Hle]. now destruct a. }
      apply eqb_fle in Heq as [_ Hge].
      eapply fle_trans; [|exact Hge].
      apply (box_contains a vs _ (FVec3 FLT_LOWEST FLT_LOWEST FLT_LOWEST) v);
        [apply sentinel_numbers..|apply Hsub, Hv|apply Hnum, Hv].
    - destruct (box_max_attained a vsF (FVec3 FLT_LOWEST FLT_LOWEST FLT_LOWEST)
                  Hne) as (v & Hv & Heq).
      { intros v Hv. destruct (Hbound v Hv) as [Hge _]. now destruct a. }
      apply eqb_fle in Heq as [Hle _].
      eapply fle_trans; [exact Hle|].
      apply (box_contains a vs (FVec3 FLT_MAX FLT_MAX FLT_MAX) _ v);
        [apply sentinel_numbers..|apply Hsub, Hv|apply Hnum, Hv]. }
  split; apply vec3_le_coord; intros a; apply Haxis.
Qed.

Lemma filtering_shrinks_box_witness :
  (parse_scene sample_rand sample_scene = Ok (sample_built, sample_printed) /\
   parse_scene sample_rand sample_filtered
   = Ok (built sample_rand sample_filtered) /\
   scene_vertices (obj_ sample_filtered) (shapes (obj_ sample_filtered))
   <> [] /\
   Forall finite_pos
     (scene_vertices (obj_ sample_filtered) (shapes (obj_ sample_filtered))))
  /\
  vec3_le (boxmin_ sample_built)
          (boxmin_ (built sample_rand sample_filtered).1) /\
  vec3_le (boxmax_ (built sample_rand sample_filtered).1)
          (boxmax_ sample_built).
Proof.
  assert (H1 : parse_scene sample_rand sample_scene
               = Ok (sample_built, sample_printed))
    by (vm_compute; reflexivity).
  assert (H2 : parse_scene sample_rand sample_filtered
               = Ok ((built sample_rand sample_filtered).1,
                     (built sample_rand sample_filtered).2))
    by (vm_compute; reflexivity).
  assert (H3 : scene_vertices (obj_ sample_filtered)
                 (shapes (obj_ sample_filtered)) <> [])
    by (vm_compute; discriminate).
  assert (H4 : Forall finite_pos
                 (scene_vertices (obj_ sample_filtered)
                    (shapes (obj_ sample_filtered)))).
  { let vs := eval vm_compute in
        (scene_vertices (obj_ sample_filtered)
           (shapes (obj_ sample_filtered))) in
    change (Forall finite_pos vs).
    repeat constructor. }
  split; [split; [exact H1|split; [vm_compute; reflexivity
                                  |split; [exact H3|exact H4]]]|].
  apply (filtering_shrinks_box sample_rand sample_files blacklist_txt
           sample_scene sample_built sample_printed
           (built sample_rand sample_filtered).1
           (built sample_rand sample_filtered).2 H1 H2 H3 H4).
Defined.
